(** * TazzerSDK (Crypto Clicker Quest): game state and Trails payment flow

    A shallow embedding of
    - [src/game/GameScene.ts]: [GameStateManager] (the observable game
      state, its persistence in [localStorage] and its listeners), and
    - [src/services/TrailsService.ts]: [TrailsService.request],
      [TrailsService.waitIntentReceipt] and
      [GamePaymentService.purchaseItem],
    followed by the properties of the specification that were checked
    against them.

    Conventions of the embedding.
    - A JavaScript [number] is an integer [Z]: every number the game
      produces from its default record and the shipped shop items
      (+10, +5, x2, [Date.now()] in ms) is integral. Arithmetic is exact
      (no rounding, no NaN, no Infinity): the embedding follows the code
      as long as the numbers stay among the safe integers, below 2^53.
      [ShopItem.priceEth], which is fractional, is a rational [Q].
    - A JavaScript string is a [string], one character for each UTF-16
      code unit: the strings the code writes, compares and reads from
      the store have their code units below 256. The body of a response
      is a [JsVal], its objects finite maps [gmap string JsVal].
    - [JSON.parse] of the stored text follows the JSON grammar in full
      and yields a [Json.Value]: its numbers are the exact rationals the
      numerals denote, its strings lists of code units (an escape can
      denote any).
    - [Date.now()] is an explicit clock reading; awaiting a remote call
      or a timer advances the clock.
    - Callbacks that the code only calls (state listeners, the status
      sink) are recorded in an event log, in call order.
    - The remote service and the wallet library are the environment: a
      run is given their answers, and every property holds whatever
      they answer unless it says otherwise. *)

From Stdlib Require Import ZArith Lia String Ascii List.
From Stdlib Require Import Decimal DecimalString DecimalZ DecimalFacts.
From Stdlib Require Import QArith_base Qreduction.
From Stdlib Require Floats Uint63.
From stdpp Require Import base strings list gmap.

#[local] Open Scope Z_scope.

(* ================================================================= *)
(** ** JavaScript values, as far as the two source files use them     *)
(* ================================================================= *)

Module Js.

(** The values [Response.json()] can produce. *)
#[warnings="-register-all"]
Inductive JsVal : Type :=
| JNull
| JBool (b : bool)
| JNum (n : Z)
| JStr (s : string)
| JArr (l : list JsVal)
| JObj (m : gmap string JsVal).

(** A thrown value: an [Error] instance (with the name of its class and
    its [message]), or anything else. [e instanceof Error] holds for the
    first constructor only. *)
Inductive thrown : Type :=
| JsError (name message : string)
| JsNonError (v : JsVal).

(** [Number.prototype.toString] on an integer: plain decimal digits (as
    JavaScript prints the integers below 10^21). *)
Definition Number_toString (n : Z) : string :=
  NilZero.string_of_int (Z.to_int n).

(** [ToBoolean]. *)
Definition truthy (v : JsVal) : bool :=
  match v with
  | JNull => false
  | JBool b => b
  | JNum n => negb (n =? 0)
  | JStr s => negb (String.eqb s "")
  | JArr _ | JObj _ => true
  end.

Fixpoint join_comma (l : list string) : string :=
  match l with
  | [] => ""
  | [s] => s
  | s :: l' => s +:+ "," +:+ join_comma l'
  end.

(** [ToString], which [new Error(x)] applies to its argument; [None] is
    the [TypeError] "Cannot convert object to primitive value". An
    object prints through [Object.prototype.toString] unless a key
    [toString] of its own (never a function, in JSON) hides it; an array
    joins its elements, [null] printing as the empty string. *)
Fixpoint toString (v : JsVal) : option string :=
  match v with
  | JNull => Some "null"
  | JBool true => Some "true"
  | JBool false => Some "false"
  | JNum n => Some (Number_toString n)
  | JStr s => Some s
  | JArr l =>
      join_comma <$>
        (fix elements (l : list JsVal) : option (list string) :=
           match l with
           | [] => Some []
           | x :: l' =>
               match match x with JNull => Some "" | _ => toString x end,
                     elements l' with
               | Some s, Some ss => Some (s :: ss)
               | _, _ => None
               end
           end) l
  | JObj m =>
      match m !! "toString" with
      | Some _ => None
      | None => Some "[object Object]"
      end
  end.

(** [hay.includes(needle)]. *)
Fixpoint includes (needle hay : string) : bool :=
  String.prefix needle hay
  || match hay with
     | EmptyString => false
     | String _ hay' => includes needle hay'
     end.

End Js.

(* ================================================================= *)
(** ** JSON text                                                      *)
(* ================================================================= *)

Module Json.

(** The values [JSON.parse] produces. A number is the exact rational
    its numeral denotes, in lowest terms: the engine holds the double
    nearest to it, which is that very number for every integer below
    2^53 in magnitude, and rounds the others (a numeral beyond the
    doubles to an infinity); the sign of a zero is not kept. A string is
    the list of its UTF-16 code units; an object maps each key to its
    value (of a repeated key, the last one). *)
#[warnings="-register-all"]
Inductive Value : Type :=
| VNull
| VBool (b : bool)
| VNum (x : Q)
| VStr (s : list N)
| VArr (l : list Value)
| VObj (m : gmap (list N) Value).

(** The code units of a text. *)
Definition units (s : string) : list N :=
  N_of_ascii <$> list_ascii_of_string s.

(** An integer as a number. *)
Definition VInt (n : Z) : Value := VNum (inject_Z n).

(** Outcome of [JSON.parse]: a value or the thrown [SyntaxError].
    [Unfinished] is the parser below out of fuel, which does not happen
    (see [JSON_parse_finishes]). *)
Inductive parse_outcome : Type :=
| Parsed (v : Value)
| SyntaxError
| Unfinished.

(** Intermediate results of the parser: a value and the rest of the
    text, a syntax error, or no fuel left. *)
Inductive res (A : Type) : Type :=
| Ok (a : A) (rest : string)
| Err
| NoFuel.
Arguments Ok {A} a rest.
Arguments Err {A}.
Arguments NoFuel {A}.

Definition is_ws (c : ascii) : bool :=
  match c with
  | " "%char | "009"%char | "010"%char | "013"%char => true
  | _ => false
  end.

Fixpoint skip_ws (s : string) : string :=
  match s with
  | String c s' => if is_ws c then skip_ws s' else s
  | EmptyString => s
  end.

(** [strip lit s]: [s] without its prefix [lit], if it has it. *)
Fixpoint strip (lit s : string) : option string :=
  match lit, s with
  | EmptyString, _ => Some s
  | String a lit', String b s' =>
      if Ascii.eqb a b then strip lit' s' else None
  | String _ _, EmptyString => None
  end.

Definition digit (c : ascii) : option (uint -> uint) :=
  match c with
  | "0"%char => Some D0 | "1"%char => Some D1 | "2"%char => Some D2
  | "3"%char => Some D3 | "4"%char => Some D4 | "5"%char => Some D5
  | "6"%char => Some D6 | "7"%char => Some D7 | "8"%char => Some D8
  | "9"%char => Some D9
  | _ => None
  end.

(** The longest run of digits at the head of [s], and what follows. *)
Fixpoint read_digits (s : string) : uint * string :=
  match s with
  | String c s' =>
      match digit c with
      | Some d => let '(u, rest) := read_digits s' in (d u, rest)
      | None => (Nil, s)
      end
  | EmptyString => (Nil, s)
  end.

Definition is_point (c : ascii) : bool := Ascii.eqb c ".".

Definition is_exp (c : ascii) : bool := Ascii.eqb c "e" || Ascii.eqb c "E".

(** The fraction of a numeral, if there is one: a point and at least
    one digit. [None] is a syntax error. *)
Definition read_fraction (s : string) : option (uint * string) :=
  match s with
  | String c s' =>
      if is_point c then
        let '(f, rest) := read_digits s' in
        if uint_beq f Nil then None else Some (f, rest)
      else Some (Nil, s)
  | EmptyString => Some (Nil, s)
  end.

(** The exponent of a numeral, if there is one: [e] or [E], an optional
    sign and at least one digit. [None] is a syntax error. *)
Definition read_exponent (s : string) : option (Z * string) :=
  match s with
  | String c s' =>
      if is_exp c then
        let '(neg, s1) :=
          match s' with
          | String sign t =>
              if Ascii.eqb sign "-" then (true, t)
              else if Ascii.eqb sign "+" then (false, t)
              else (false, s')
          | EmptyString => (false, s')
          end in
        let '(x, rest) := read_digits s1 in
        if uint_beq x Nil then None
        else Some (if neg then - Z.of_uint x else Z.of_uint x, rest)
      else Some (0, s)
  | EmptyString => Some (0, s)
  end.

(** The number [m * 10^e], in lowest terms. *)
Definition decimal (m e : Z) : Q :=
  Qred (Qmult (inject_Z m) (Qpower (inject_Z 10) e)).

(** A JSON numeral: an optional minus sign, digits without a
    superfluous leading zero, an optional fraction and an optional
    exponent. *)
Definition read_number (s : string) : res Q :=
  let '(neg, s1) :=
    match s with
    | String sign s' => if Ascii.eqb sign "-" then (true, s') else (false, s)
    | EmptyString => (false, s)
    end in
  let '(u, r1) := read_digits s1 in
  if uint_beq u Nil then Err
  else if negb (uint_beq (unorm u) u) then Err
  else
    match read_fraction r1 with
    | None => Err
    | Some (f, r2) =>
        match read_exponent r2 with
        | None => Err
        | Some (x, rest) =>
            let digits := Decimal.app u f in
            Ok (decimal (Z.of_int (if neg then Neg digits else Pos digits))
                  (x - Z.of_nat (nb_digits f)))
               rest
        end
    end.

Definition unescape (c : ascii) : option ascii :=
  match c with
  | "034"%char => Some "034"%char
  | "\"%char => Some "\"%char
  | "/"%char => Some "/"%char
  | "b"%char => Some "008"%char
  | "f"%char => Some "012"%char
  | "n"%char => Some "010"%char
  | "r"%char => Some "013"%char
  | "t"%char => Some "009"%char
  | _ => None
  end.

(** The value of a hexadecimal digit, of either case. *)
Definition hex (c : ascii) : option N :=
  let n := N_of_ascii c in
  if (48 <=? n)%N && (n <=? 57)%N then Some (n - 48)%N
  else if (97 <=? n)%N && (n <=? 102)%N then Some (n - 87)%N
  else if (65 <=? n)%N && (n <=? 70)%N then Some (n - 55)%N
  else None.

(** The code unit that four hexadecimal digits denote. *)
Definition hex4 (a b c d : ascii) : option N :=
  match hex a, hex b, hex c, hex d with
  | Some h3, Some h2, Some h1, Some h0 =>
      Some (4096 * h3 + 256 * h2 + 16 * h1 + h0)%N
  | _, _, _, _ => None
  end.

Definition res_map {A B : Type} (f : A -> B) (r : res A) : res B :=
  match r with
  | Ok a rest => Ok (f a) rest
  | Err => Err
  | NoFuel => NoFuel
  end.

Definition cons_unit (u : N) : res (list N) -> res (list N) :=
  res_map (cons u).

(** The code units of a string literal, after its opening quote. *)
Fixpoint read_string (s : string) : res (list N) :=
  match s with
  | EmptyString => Err
  | String c s' =>
      if Ascii.eqb c "034" then Ok [] s'
      else if Ascii.eqb c "\" then
        match s' with
        | String e s'' =>
            if Ascii.eqb e "u" then
              match s'' with
              | String h3 (String h2 (String h1 (String h0 s3))) =>
                  match hex4 h3 h2 h1 h0 with
                  | Some u => cons_unit u (read_string s3)
                  | None => Err
                  end
              | _ => Err
              end
            else match unescape e with
                 | Some c' => cons_unit (N_of_ascii c') (read_string s'')
                 | None => Err
                 end
        | EmptyString => Err
        end
      else if (nat_of_ascii c <? 32)%nat then Err
      else cons_unit (N_of_ascii c) (read_string s')
  end.

Definition literal (lit : string) (v : Value) (s : string) : res Value :=
  match strip lit s with
  | Some rest => Ok v rest
  | None => Err
  end.

(** Recursive descent over the JSON grammar; every call spends one unit
    of [fuel], and [2 * String.length s + 1] units are enough for [s]
    (see [parse_value_fuel]). *)
Fixpoint parse_value (fuel : nat) (s : string) : res Value :=
  match fuel with
  | O => NoFuel
  | S fuel =>
      match skip_ws s with
      | EmptyString => Err
      | String c r =>
          if Ascii.eqb c "n" then literal "ull" VNull r
          else if Ascii.eqb c "t" then literal "rue" (VBool true) r
          else if Ascii.eqb c "f" then literal "alse" (VBool false) r
          else if Ascii.eqb c "034" then
            res_map VStr (read_string r)
          else if Ascii.eqb c "[" then
            match skip_ws r with
            | String c' rest =>
                if Ascii.eqb c' "]" then Ok (VArr []) rest
                else parse_elements fuel r []
            | EmptyString => parse_elements fuel r []
            end
          else if Ascii.eqb c "{" then
            match skip_ws r with
            | String c' rest =>
                if Ascii.eqb c' "}" then Ok (VObj ∅) rest
                else parse_members fuel r ∅
            | EmptyString => parse_members fuel r ∅
            end
          else res_map VNum (read_number (String c r))
      end
  end
with parse_elements (fuel : nat) (s : string) (acc : list Value)
  : res Value :=
  match fuel with
  | O => NoFuel
  | S fuel =>
      match parse_value fuel s with
      | Ok v r =>
          match skip_ws r with
          | String c rest =>
              if Ascii.eqb c "," then parse_elements fuel rest (acc ++ [v])
              else if Ascii.eqb c "]" then Ok (VArr (acc ++ [v])) rest
              else Err
          | EmptyString => Err
          end
      | Err => Err
      | NoFuel => NoFuel
      end
  end
with parse_members (fuel : nat) (s : string) (acc : gmap (list N) Value)
  : res Value :=
  match fuel with
  | O => NoFuel
  | S fuel =>
      match skip_ws s with
      | String q r =>
          if negb (Ascii.eqb q "034") then Err
          else
            match read_string r with
            | Ok k r1 =>
                match skip_ws r1 with
                | String c r2 =>
                    if negb (Ascii.eqb c ":") then Err
                    else
                      match parse_value fuel r2 with
                      | Ok v r3 =>
                          match skip_ws r3 with
                          | String c' rest =>
                              if Ascii.eqb c' "," then
                                parse_members fuel rest (<[k:=v]> acc)
                              else if Ascii.eqb c' "}" then
                                Ok (VObj (<[k:=v]> acc)) rest
                              else Err
                          | EmptyString => Err
                          end
                      | Err => Err
                      | NoFuel => NoFuel
                      end
                | EmptyString => Err
                end
            | Err => Err
            | NoFuel => NoFuel
            end
      | EmptyString => Err
      end
  end.

(** [JSON.parse(s)]. *)
Definition JSON_parse (s : string) : parse_outcome :=
  match parse_value (2 * String.length s + 1) s with
  | Ok v rest =>
      match skip_ws rest with
      | EmptyString => Parsed v
      | String _ _ => SyntaxError
      end
  | Err => SyntaxError
  | NoFuel => Unfinished
  end.

End Json.

(* ================================================================= *)
(** ** src/game/GameScene.ts: GameStateManager                        *)
(* ================================================================= *)

Module Game.
Import Js Json.

(** [interface GameState]. *)
Record GameState : Type := mkGameState {
  coins : Z;
  clickPower : Z;
  autoPerSecond : Z;
  multiplier : Z;
  multiplierEndTime : Z;
  totalClicks : Z;
  totalCoinsEarned : Z;
  purchaseCount : Z
}.

(** The object literal of [loadState] and [resetState]. *)
Definition defaultState : GameState :=
  {| coins := 0; clickPower := 1; autoPerSecond := 0; multiplier := 1;
     multiplierEndTime := 0; totalClicks := 0; totalCoinsEarned := 0;
     purchaseCount := 0 |}.

Definition STORAGE_KEY : string := "cryptoClickerState".

(** One [...,"key":number] member of an object, followed by [rest]. *)
Definition member (key : string) (n : Z) (rest : string) : string :=
  String "034" (key +:+ String "034" (String ":" (Number_toString n +:+ rest))).

(** [JSON.stringify(this.state)]: the keys in the order of the
    interface, no white space. *)
Definition JSON_stringify (s : GameState) : string :=
  String "{"
    (member "coins" (coins s) (String ","
    (member "clickPower" (clickPower s) (String ","
    (member "autoPerSecond" (autoPerSecond s) (String ","
    (member "multiplier" (multiplier s) (String ","
    (member "multiplierEndTime" (multiplierEndTime s) (String ","
    (member "totalClicks" (totalClicks s) (String ","
    (member "totalCoinsEarned" (totalCoinsEarned s) (String ","
    (member "purchaseCount" (purchaseCount s) "}"))))))))))))))).

(** A [GameState] record as the JavaScript object it is. *)
Definition js_of_GameState (s : GameState) : Value :=
  VObj (<[units "purchaseCount" := VInt (purchaseCount s)]>
       (<[units "totalCoinsEarned" := VInt (totalCoinsEarned s)]>
       (<[units "totalClicks" := VInt (totalClicks s)]>
       (<[units "multiplierEndTime" := VInt (multiplierEndTime s)]>
       (<[units "multiplier" := VInt (multiplier s)]>
       (<[units "autoPerSecond" := VInt (autoPerSecond s)]>
       (<[units "clickPower" := VInt (clickPower s)]>
       (<[units "coins" := VInt (coins s)]> ∅)))))))).

(** The integer under the key [k], if there is one. *)
Definition num_field (m : gmap (list N) Value) (k : string) : option Z :=
  match m !! units k with
  | Some (VNum x) => if (Qden x =? 1)%positive then Some (Qnum x) else None
  | _ => None
  end.

(** The JavaScript values that are [GameState] records of this
    embedding: objects with exactly the eight keys, each an integer. *)
Definition GameState_of_js (v : Value) : option GameState :=
  match v with
  | VObj m =>
      if (size m =? 8)%nat then
        c ← num_field m "coins";
        p ← num_field m "clickPower";
        a ← num_field m "autoPerSecond";
        x ← num_field m "multiplier";
        e ← num_field m "multiplierEndTime";
        t ← num_field m "totalClicks";
        z ← num_field m "totalCoinsEarned";
        n ← num_field m "purchaseCount";
        Some (mkGameState c p a x e t z n)
      else None
  | _ => None
  end.

(** A subscribed callback, by identity. *)
Definition listener : Type := nat.

(** What the manager does to the outside, in order: a listener called
    with a snapshot (together with what the storage slot held at that
    moment), and [localStorage.setItem]. *)
Inductive event : Type :=
| Notified (l : listener) (snapshot : GameState) (slot : option string)
| Stored (key value : string).

(** The manager ([state], [listeners]: a [Set], in insertion order) and
    the part of the browser it acts on. *)
Record World : Type := mkWorld {
  state : GameState;
  listeners : list listener;
  localStorage : gmap string string;
  log : list event
}.

(** [loadState()]: whatever [JSON.parse] returns is returned as it is.
    [None]: the parser out of fuel, which does not happen. *)
Definition loadState (ls : gmap string string) : option Value :=
  match ls !! STORAGE_KEY with
  | Some saved =>
      if String.eqb saved "" then Some (js_of_GameState defaultState)
      else match JSON_parse saved with
           | Parsed v => Some v
           | SyntaxError => Some (js_of_GameState defaultState)
           | Unfinished => None
           end
  | None => Some (js_of_GameState defaultState)
  end.

(** [new GameStateManager()], when the loaded value is a [GameState]. *)
Definition GameStateManager_new (ls : gmap string string) : option World :=
  v ← loadState ls;
  s ← GameState_of_js v;
  Some {| state := s; listeners := []; localStorage := ls; log := [] |}.

Definition saveState (w : World) : World :=
  let text := JSON_stringify (state w) in
  {| state := state w;
     listeners := listeners w;
     localStorage := <[STORAGE_KEY := text]> (localStorage w);
     log := log w ++ [Stored STORAGE_KEY text] |}.

Definition getState (w : World) : GameState := state w.

(** [subscribe(listener)]; the returned closure is [unsubscribe l]. *)
Definition subscribe (l : listener) (w : World) : World :=
  {| state := state w;
     listeners := if bool_decide (l ∈ listeners w) then listeners w
                  else listeners w ++ [l];
     localStorage := localStorage w;
     log := log w |}.

Definition unsubscribe (l : listener) (w : World) : World :=
  {| state := state w;
     listeners := filter (λ l', l' ≠ l) (listeners w);
     localStorage := localStorage w;
     log := log w |}.

(** [notify()]: first every listener, then [saveState]. *)
Definition notify (w : World) : World :=
  let snapshot := getState w in
  let slot := localStorage w !! STORAGE_KEY in
  saveState
    {| state := state w;
       listeners := listeners w;
       localStorage := localStorage w;
       log := log w ++ map (λ l, Notified l snapshot slot) (listeners w) |}.

Definition with_state (s : GameState) (w : World) : World :=
  {| state := s; listeners := listeners w;
     localStorage := localStorage w; log := log w |}.

Definition addCoins (amount : Z) (w : World) : World :=
  let s := state w in
  let earned := amount * multiplier s in
  notify (with_state
    {| coins := coins s + earned; clickPower := clickPower s;
       autoPerSecond := autoPerSecond s; multiplier := multiplier s;
       multiplierEndTime := multiplierEndTime s;
       totalClicks := totalClicks s;
       totalCoinsEarned := totalCoinsEarned s + earned;
       purchaseCount := purchaseCount s |} w).

Definition click (w : World) : Z * World :=
  let s := state w in
  let earned := clickPower s * multiplier s in
  (earned,
   notify (with_state
     {| coins := coins s + earned; clickPower := clickPower s;
        autoPerSecond := autoPerSecond s; multiplier := multiplier s;
        multiplierEndTime := multiplierEndTime s;
        totalClicks := totalClicks s + 1;
        totalCoinsEarned := totalCoinsEarned s + earned;
        purchaseCount := purchaseCount s |} w)).

Definition autoGenerate (w : World) : Z * World :=
  let s := state w in
  if autoPerSecond s <=? 0 then (0, w)
  else
    let earned := autoPerSecond s * multiplier s in
    (earned,
     notify (with_state
       {| coins := coins s + earned; clickPower := clickPower s;
          autoPerSecond := autoPerSecond s; multiplier := multiplier s;
          multiplierEndTime := multiplierEndTime s;
          totalClicks := totalClicks s;
          totalCoinsEarned := totalCoinsEarned s + earned;
          purchaseCount := purchaseCount s |} w)).

Definition addClickPower (amount : Z) (w : World) : World :=
  let s := state w in
  notify (with_state
    {| coins := coins s; clickPower := clickPower s + amount;
       autoPerSecond := autoPerSecond s; multiplier := multiplier s;
       multiplierEndTime := multiplierEndTime s;
       totalClicks := totalClicks s;
       totalCoinsEarned := totalCoinsEarned s;
       purchaseCount := purchaseCount s + 1 |} w).

Definition addAutoPerSecond (amount : Z) (w : World) : World :=
  let s := state w in
  notify (with_state
    {| coins := coins s; clickPower := clickPower s;
       autoPerSecond := autoPerSecond s + amount;
       multiplier := multiplier s;
       multiplierEndTime := multiplierEndTime s;
       totalClicks := totalClicks s;
       totalCoinsEarned := totalCoinsEarned s;
       purchaseCount := purchaseCount s + 1 |} w).

(** [now] is the reading of [Date.now()]. *)
Definition setMultiplier (now : Z) (m durationMs : Z) (w : World) : World :=
  let s := state w in
  notify (with_state
    {| coins := coins s; clickPower := clickPower s;
       autoPerSecond := autoPerSecond s; multiplier := m;
       multiplierEndTime := now + durationMs;
       totalClicks := totalClicks s;
       totalCoinsEarned := totalCoinsEarned s;
       purchaseCount := purchaseCount s + 1 |} w).

Definition checkMultiplierExpiry (now : Z) (w : World) : bool * World :=
  let s := state w in
  if (1 <? multiplier s) && (multiplierEndTime s <? now) then
    (true,
     notify (with_state
       {| coins := coins s; clickPower := clickPower s;
          autoPerSecond := autoPerSecond s; multiplier := 1;
          multiplierEndTime := 0;
          totalClicks := totalClicks s;
          totalCoinsEarned := totalCoinsEarned s;
          purchaseCount := purchaseCount s |} w))
  else (false, w).

Definition resetState (w : World) : World :=
  notify (with_state defaultState w).

(** The named operations, and what a call returns. *)
Inductive Op : Type :=
| Click
| AutoGenerate
| AddClickPower (amount : Z)
| AddAutoPerSecond (amount : Z)
| SetMultiplier (m durationMs : Z)
| CheckMultiplierExpiry
| ResetState.

Inductive Ret : Type :=
| RNum (n : Z)
| RBool (b : bool)
| RVoid.

(** One call, made when the clock reads [now]. *)
Definition run_op (now : Z) (o : Op) (w : World) : Ret * World :=
  match o with
  | Click => let '(n, w') := click w in (RNum n, w')
  | AutoGenerate => let '(n, w') := autoGenerate w in (RNum n, w')
  | AddClickPower a => (RVoid, addClickPower a w)
  | AddAutoPerSecond a => (RVoid, addAutoPerSecond a w)
  | SetMultiplier m d => (RVoid, setMultiplier now m d w)
  | CheckMultiplierExpiry =>
      let '(b, w') := checkMultiplierExpiry now w in (RBool b, w')
  | ResetState => (RVoid, resetState w)
  end.

(** A sequence of calls, each with its clock reading; the returned
    values in call order. *)
Fixpoint run_ops (calls : list (Z * Op)) (w : World) : list Ret * World :=
  match calls with
  | [] => ([], w)
  | (now, o) :: calls' =>
      let '(r, w1) := run_op now o w in
      let '(rs, w2) := run_ops calls' w1 in
      (r :: rs, w2)
  end.

Definition earned_of (r : Ret) : Z :=
  match r with
  | RNum n => n
  | _ => 0
  end.

(** The states the named operations reach from the default record. *)
Inductive reachable : World -> Prop :=
| reach_init ls ws evs :
    reachable {| state := defaultState; listeners := ws;
                 localStorage := ls; log := evs |}
| reach_subscribe l w : reachable w -> reachable (subscribe l w)
| reach_unsubscribe l w : reachable w -> reachable (unsubscribe l w)
| reach_op now o w : reachable w -> reachable (snd (run_op now o w)).

End Game.

(* ================================================================= *)
(** ** src/services/TrailsService.ts                                  *)
(* ================================================================= *)

Module Trails.
Import Js.

Inductive TradeType : Type := EXACT_INPUT | EXACT_OUTPUT.

Inductive RouteProvider : Type := AUTO | CCTP | LIFI | RELAY | SUSHI | ZEROX.

Record QuoteOptions : Type := {
  slippageTolerance : option Q;
  bridgeProvider : option RouteProvider
}.

Record QuoteRequest : Type := {
  req_ownerAddress : string;
  req_originChainId : Z;
  req_originTokenAddress : string;
  req_originTokenAmount : Z;
  req_destinationChainId : Z;
  req_destinationTokenAddress : string;
  req_destinationToAddress : string;
  req_tradeType : TradeType;
  req_options : option QuoteOptions;
  req_toCalldata : option string
}.

Record Intent : Type := {
  intent_id : string;
  originChainId : Z;
  destinationChainId : Z;
  originTokenAddress : string;
  destinationTokenAddress : string;
  originTokenAmount : string;
  destinationTokenAmount : string;
  ownerAddress : string;
  destinationToAddress : string;
  expiresAt : Z
}.

Record Quote : Type := {
  intent : Intent;
  fromAmount : string;
  fromAmountMin : string;
  toAmount : string;
  toAmountMin : string;
  totalFeeAmount : string;
  totalFeeAmountUsd : string;
  priceImpact : string;
  completionEstimateSeconds : Z;
  route : string
}.

Inductive Status : Type := pending | processing | completed | failed | refunded.

Record IntentReceipt : Type := {
  intentId : string;
  status : Status;
  originTxHash : option string;
  destinationTxHash : option string;
  error : option string
}.

Record CommitResult : Type := {
  commit_intentId : string;
  commit_expiresAt : Z
}.

Record ExecuteResult : Type := { txHash : string }.

Definition NATIVE_TOKEN_ADDRESS : string :=
  "0x0000000000000000000000000000000000000000".

(** The JSON bodies the service posts. *)
Inductive request_body : Type :=
| QuoteBody (params : QuoteRequest) (slippage : Q) (provider : RouteProvider)
| CommitBody (i : Intent)
| ExecuteBody (id : string) (depositSignature : option string)
| ReceiptBody (id : string).

(** What [fetch] and the response turn out to be: [fetch] rejects; a
    2xx response, whose [json()] rejects or yields the declared type;
    another status, whose [json()] rejects ([None]) or yields some JSON
    value. *)
Inductive fetch_outcome (T : Type) : Type :=
| FetchFailed (e : thrown)
| HttpOk (body : thrown + T)
| HttpError (status : Z) (body : option JsVal).
Arguments FetchFailed {T} e.
Arguments HttpOk {T} body.
Arguments HttpError {T} status body.

(** The answer of the remote service to one request, and how long the
    caller waits for it. *)
Record reply (T : Type) : Type := {
  latency : Z;
  outcome : fetch_outcome T
}.
Arguments latency {T} r.
Arguments outcome {T} r.

(** The status sink handed to [purchaseItem], by identity. *)
Definition sink : Type := nat.

(** What a run does to the outside, in order. [Received] records a
    receipt that [getIntentReceipt] returned. *)
Inductive event : Type :=
| StatusUpdate (to : sink) (msg : string)
| Request (at_time : Z) (url : string) (body : request_body)
| Received (receipt : IntentReceipt)
| Slept (ms : Z)
| EffectApplied (item : string).

Record TrailsService : Type := {
  apiKey : string;
  baseUrl : string
}.

Definition TrailsService_new (key : string) (url : option string)
  : TrailsService :=
  {| apiKey := key; baseUrl := default "https://api.trails.build" url |}.

Section WithGame.
(** The store the shop items act on (the game state manager). A
    [ShopItem.effect] is a function of the clock reading and the
    store: the shipped effects are sequences of the manager's
    mutators, which always return. A purchase touches the store through
    [item.effect] only; what timers do to the store while the purchase
    awaits an answer is not part of this model. *)
Context {G : Type}.

Record World : Type := mkWorld {
  now : Z;
  game : G;
  log : list event
}.

(** An asynchronous computation: it may throw, it changes the world,
    and [None] means the model ran out of fuel. *)
Definition M (A : Type) : Type := World -> option ((thrown + A) * World).

Definition ret {A} (a : A) : M A := fun w => Some (inr a, w).

Definition throw {A} (e : thrown) : M A := fun w => Some (inl e, w).

Definition bind {A B} (m : M A) (k : A -> M B) : M B :=
  fun w =>
    match m w with
    | None => None
    | Some (inl e, w') => Some (inl e, w')
    | Some (inr a, w') => k a w'
    end.

Definition try_catch {A} (body : M A) (handler : thrown -> M A) : M A :=
  fun w =>
    match body w with
    | Some (inl e, w') => handler e w'
    | r => r
    end.

Definition emit (e : event) : M unit :=
  fun w => Some (inr tt, {| now := now w; game := game w;
                            log := log w ++ [e] |}).

Definition elapse (ms : Z) : M unit :=
  fun w => Some (inr tt, {| now := now w + ms; game := game w;
                            log := log w |}).

Definition Date_now : M Z := fun w => Some (inr (now w), w).

Definition of_result {A} (r : thrown + A) : M A :=
  match r with
  | inl e => throw e
  | inr a => ret a
  end.

End WithGame.
Arguments World G : clear implicits.
Arguments M G A : clear implicits.

Notation "'let*' x := m 'in' k" := (bind m (fun x => k))
  (at level 10, x name, m at level 200, k at level 200).

Section WithGame.
Context {G : Type}.

(** [error.message] on the parsed body of an error response: the
    [TypeError] on [null], the property of an object, [undefined]
    ([None]) on everything else. *)
Definition read_message (error : JsVal) : thrown + option JsVal :=
  match error with
  | JNull =>
      inl (JsError "TypeError"
             "Cannot read properties of null (reading 'message')")
  | JObj m => inr (m !! "message")
  | _ => inr None
  end.

(** [new Error(error.message || `API error: ${response.status}`)]: the
    error object, or the [TypeError] of a message that has no string. *)
Definition error_of (message : option JsVal) (status : Z) : thrown :=
  let text :=
    match message with
    | Some v =>
        if truthy v then toString v
        else Some ("API error: " +:+ Number_toString status)
    | None => Some ("API error: " +:+ Number_toString status)
    end in
  match text with
  | Some s => JsError "Error" s
  | None => JsError "TypeError" "Cannot convert object to primitive value"
  end.

(** [request<T>(endpoint, body)], given the answer [r] of the remote
    service. *)
Definition request {T} (svc : TrailsService) (endpoint : string)
    (body : request_body) (r : reply T) : M G T :=
  let* t := Date_now in
  let* _ := emit (Request t (baseUrl svc +:+ endpoint) body) in
  let* _ := elapse (latency r) in
  match outcome r with
  | FetchFailed e => throw e
  | HttpOk b => of_result b
  | HttpError status b =>
      let error :=
        match b with
        | Some v => v
        | None => JObj {[ "message" := JStr "Unknown error" ]}
        end in
      let* message := of_result (read_message error) in
      throw (error_of message status)
  end.

Definition quoteIntent (svc : TrailsService) (r : reply Quote)
    (params : QuoteRequest) : M G Quote :=
  request svc "/v1/quoteIntent"
    (QuoteBody params
       (default (5 # 1000)%Q (req_options params ≫= slippageTolerance))
       (default AUTO (req_options params ≫= bridgeProvider)))
    r.

Definition commitIntent (svc : TrailsService) (r : reply CommitResult)
    (i : Intent) : M G CommitResult :=
  request svc "/v1/commitIntent" (CommitBody i) r.

Definition executeIntent (svc : TrailsService) (r : reply ExecuteResult)
    (id : string) (depositSignature : option string)
  : M G ExecuteResult :=
  request svc "/v1/executeIntent" (ExecuteBody id depositSignature) r.

Definition getIntentReceipt (svc : TrailsService)
    (r : reply IntentReceipt) (id : string) : M G IntentReceipt :=
  let* receipt := request svc "/v1/getIntentReceipt" (ReceiptBody id) r in
  let* _ := emit (Received receipt) in
  ret receipt.

Definition is_terminal (receipt : IntentReceipt) : bool :=
  match status receipt with
  | completed | failed | refunded => true
  | pending | processing => false
  end.

(** [await new Promise(resolve => setTimeout(resolve, ms))]. *)
Definition sleep (ms : Z) : M G unit :=
  let* _ := emit (Slept ms) in elapse (Z.max 0 ms).

Record WaitOptions : Type := {
  timeout : option Z;
  pollInterval : option Z
}.

(** The [while] loop of [waitIntentReceipt]; [replies k] is the answer
    to the poll number [k], and one unit of [fuel] pays for one test
    of the loop condition. *)
Fixpoint poll_loop (fuel : nat) (svc : TrailsService)
    (replies : nat -> reply IntentReceipt) (k : nat) (id : string)
    (startTime timeout pollInterval : Z) : M G IntentReceipt :=
  match fuel with
  | O => fun _ => None
  | S fuel =>
      let* t := Date_now in
      if t - startTime <? timeout then
        let* receipt := getIntentReceipt svc (replies k) id in
        if is_terminal receipt then ret receipt
        else
          let* _ := sleep pollInterval in
          poll_loop fuel svc replies (S k) id startTime timeout pollInterval
      else throw (JsError "Error" "Intent receipt timeout")
  end.

Definition waitIntentReceipt (fuel : nat) (svc : TrailsService)
    (replies : nat -> reply IntentReceipt) (id : string)
    (options : option WaitOptions) : M G IntentReceipt :=
  let timeout := default 300000 (options ≫= timeout) in
  let pollInterval := default 2000 (options ≫= pollInterval) in
  let* startTime := Date_now in
  poll_loop fuel svc replies 0 id startTime timeout pollInterval.

(* ------------------------------------------------------------- *)
(** *** GamePaymentService                                        *)

Record ShopItem : Type := {
  id : string;
  name : string;
  description : string;
  priceEth : Q;
  effect : Z -> G -> G
}.

Inductive Signer : Type := BrowserSigner.

Record GamePaymentService : Type := {
  trails : TrailsService;
  signer : option Signer;
  address : option string;
  treasuryAddress : string;
  svc_destinationChainId : Z
}.

(** What one purchase meets outside the code: [ethers.parseEther]
    applied to [priceEth.toString()], and the answers of the remote
    service to the quote, the commit, the execution and the polls. *)
Record Env : Type := {
  parseEther : Q -> thrown + Z;
  quote_reply : reply Quote;
  commit_reply : reply CommitResult;
  execute_reply : reply ExecuteResult;
  receipt_reply : nat -> reply IntentReceipt
}.

(** [item.effect()]: the effect runs on the store, at the current
    reading of the clock. *)
Definition apply_effect (item : ShopItem) : M G unit :=
  fun w => Some (inr tt, {| now := now w;
                            game := effect item (now w) (game w);
                            log := log w ++ [EffectApplied (id item)] |}).

(** [const update = onStatusUpdate || (() => {})]. *)
Definition update (onStatusUpdate : option sink) (msg : string) : M G unit :=
  match onStatusUpdate with
  | Some k => emit (StatusUpdate k msg)
  | None => ret tt
  end.

(** The [try] block of [purchaseItem]. *)
Definition purchaseItem_try (fuel : nat) (svc : GamePaymentService)
    (env : Env) (item : ShopItem) (fromChainId : Z)
    (onStatusUpdate : option sink) (owner : string) : M G IntentReceipt :=
  let* _ := update onStatusUpdate "Getting best route..." in
  let* amount := of_result (parseEther env (priceEth item)) in
  let* quote := quoteIntent (trails svc) (quote_reply env)
             {| req_ownerAddress := owner;
                req_originChainId := fromChainId;
                req_originTokenAddress := NATIVE_TOKEN_ADDRESS;
                req_originTokenAmount := amount;
                req_destinationChainId := svc_destinationChainId svc;
                req_destinationTokenAddress := NATIVE_TOKEN_ADDRESS;
                req_destinationToAddress := treasuryAddress svc;
                req_tradeType := EXACT_INPUT;
                req_options := None;
                req_toCalldata := None |} in
  let* _ := update onStatusUpdate "Locking in rate..." in
  let* committed := commitIntent (trails svc) (commit_reply env) (intent quote) in
  let* _ := update onStatusUpdate "Confirm in your wallet..." in
  let* _ := executeIntent (trails svc) (execute_reply env)
         (commit_intentId committed) None in
  let* _ := update onStatusUpdate "Waiting for confirmation..." in
  let* receipt := waitIntentReceipt fuel (trails svc) (receipt_reply env)
               (commit_intentId committed) None in
  let* _ := match status receipt with
       | completed => apply_effect item
       | _ => ret tt
       end in
  ret receipt.

(** The [catch] block of [purchaseItem]. *)
Definition purchaseItem_catch (error : thrown) : M G IntentReceipt :=
  match error with
  | JsError _ message =>
      if includes "rejected" message
      then throw (JsError "Error" "Transaction rejected by user")
      else throw error
  | JsNonError _ => throw error
  end.

Definition purchaseItem (fuel : nat) (svc : GamePaymentService)
    (env : Env) (item : ShopItem) (fromChainId : Z)
    (onStatusUpdate : option sink) : M G IntentReceipt :=
  match address svc, signer svc with
  | Some owner, Some _ =>
      if String.eqb owner "" then
        throw (JsError "Error" "Wallet not connected")
      else
        try_catch
          (purchaseItem_try fuel svc env item fromChainId
             onStatusUpdate owner)
          purchaseItem_catch
  | _, _ => throw (JsError "Error" "Wallet not connected")
  end.

End WithGame.
Arguments ShopItem G : clear implicits.
Arguments GamePaymentService : clear implicits.
Arguments Env : clear implicits.

End Trails.

(* ================================================================= *)
(** ** src/main.ts: the shop                                          *)
(* ================================================================= *)

Module Main.
Import Game Trails.

Definition SHOP_ITEMS : list (ShopItem Game.World) :=
  [ {| id := "click-boost";
       name := "Click Boost";
       description := "+10 coins per click permanently. Stack infinitely!";
       priceEth := (23 # 100000)%Q;
       effect := λ _ g, addClickPower 10 g |};
    {| id := "auto-miner";
       name := "Auto Miner";
       description := "Generates 5 coins per second automatically.";
       priceEth := (70 # 100000)%Q;
       effect := λ _ g, addAutoPerSecond 5 g |};
    {| id := "multiplier";
       name := "2X Multiplier";
       description := "Doubles ALL coin generation for 5 minutes!";
       priceEth := (12 # 10000)%Q;
       effect := λ now g, setMultiplier now 2 (5 * 60 * 1000) g |};
    {| id := "mega-pack";
       name := "Mega Pack";
       description := "+50 click power, +20 auto/sec, and 10 min 2x boost!";
       priceEth := (23 # 10000)%Q;
       effect := λ now g,
         setMultiplier now 2 (10 * 60 * 1000)
           (addAutoPerSecond 20 (addClickPower 50 g)) |};
    {| id := "legendary-crystal";
       name := "Legendary Crystal";
       description :=
         "+500 click power, +100 auto/sec, permanent 1.5x base multiplier!";
       priceEth := (5 # 100)%Q;
       effect := λ _ g, addAutoPerSecond 100 (addClickPower 500 g) |} ].

End Main.

(* ================================================================= *)
(** ** src/game/GameScene.ts: formatNumber                            *)
(* ================================================================= *)

Module Format.
Import Js.

(** The safe integers are those below [2^53] in absolute value: each is
    a double, and [formatNumber] is modelled on them. *)
Definition MAX_SAFE : Z := 9007199254740992.

(** A safe integer that is not negative, as the double it is. *)
Definition to_double (n : Z) : PrimFloat.float :=
  PrimFloat.of_uint63 (Uint63.of_Z n).

(** For a finite double [x >= 0]: the integer [n] for which [n / 10] is
    closest to [x], the larger one if two are as close; that is, the
    integer part of [10 x + 1/2], computed on the exact value
    [m * 2^e] of [x]. *)
Definition tenths (x : PrimFloat.float) : option Z :=
  match FloatOps.Prim2SF x with
  | SpecFloat.S754_zero _ => Some 0
  | SpecFloat.S754_finite false m e =>
      if 0 <=? e then Some (10 * Z.pos m * 2 ^ e)
      else Some ((20 * Z.pos m + 2 ^ (- e)) / 2 ^ (- e + 1))
  | _ => None
  end.

(** [x.toFixed(1)] for a finite double [x >= 0] below [10^21]: the
    digits of that integer with a point before the last one. *)
Definition toFixed1 (x : PrimFloat.float) : option string :=
  n ← tenths x;
  Some (Number_toString (n / 10) +:+ "." +:+ Number_toString (n mod 10)).

(** [(num / unit).toFixed(1) + suffix]. *)
Definition scaled (num unit : Z) (suffix : string) : option string :=
  text ← toFixed1 (PrimFloat.div (to_double num) (to_double unit));
  Some (text +:+ suffix).

(** [formatNumber(num)] on a safe integer ([None] beyond them). On an
    integer [Math.floor] changes nothing. *)
Definition formatNumber (num : Z) : option string :=
  if MAX_SAFE <=? Z.abs num then None
  else if 1000000000000 <=? num then scaled num 1000000000000 "T"
  else if 1000000000 <=? num then scaled num 1000000000 "B"
  else if 1000000 <=? num then scaled num 1000000 "M"
  else if 1000 <=? num then scaled num 1000 "K"
  else Some (Number_toString num).

End Format.

(* ================================================================= *)
(** ** src/game/GameScene.ts: MainScene, the calls into the manager    *)
(* ================================================================= *)

Module Scene.
Import Game Format.


Definition Qmin (a b : Q) : Q := if Qle_bool a b then a else b.

(** What [handleClick()] decides to show. *)
Record ClickFx : Type := {
  particles : Z;
  floating : option string;
  big : bool;
  shake : option Q;
  celebration : bool
}.

(** [handleClick()]: the click, then the number of coins to emit, the
    floating text and whether it is the big one, the shake of the camera
    with its intensity, and whether the celebration runs. *)
Definition handleClick (w : World) : ClickFx * World :=
  let '(earned, w') := click w in
  ({| particles := Z.min (3 + earned / 100) 10;
      floating := (λ text, "+" +:+ text) <$> formatNumber earned;
      big := 100 <=? earned;
      shake :=
        if 50 <=? earned
        then Some (Qmult (3 # 1000) (Qmin (earned # 50) (3 # 1)))
        else None;
      celebration := Z.rem (totalClicks (getState w')) 100 =? 0 |},
   w').

(** [n] clicks in a row: what each showed, in order. *)
Fixpoint handleClicks (n : nat) (w : World) : list ClickFx * World :=
  match n with
  | O => ([], w)
  | S n' =>
      let '(fx, w1) := handleClick w in
      let '(fxs, w2) := handleClicks n' w1 in
      (fx :: fxs, w2)
  end.

End Scene.

(* ================================================================= *)
(** ** src/services/TrailsService.ts: the wallet session               *)
(* ================================================================= *)

Module Wallet.
Import Js Trails.

Inductive BrowserProvider : Type := InjectedProvider.

(** The whole [GamePaymentService] object: the fields [purchaseItem]
    reads, and [provider]. *)
Record PaymentObject : Type := {
  service : GamePaymentService;
  provider : option BrowserProvider
}.

(** What a call meets in the browser: whether [window.ethereum] is there,
    and what [provider.getSigner()], [signer.getAddress()] and
    [provider.getNetwork()] (its [chainId], as a number) come to. *)
Record Browser : Type := {
  ethereum : bool;
  getSigner : thrown + Signer;
  getAddress_of_signer : thrown + string;
  getNetwork : thrown + Z
}.

(** [new GamePaymentService(apiKey, treasuryAddress, destinationChainId)],
    which is [createGamePaymentService] too. *)
Definition GamePaymentService_new (key treasury : string)
    (destination : option Z) : PaymentObject :=
  {| service :=
       {| trails := TrailsService_new key None;
          signer := None;
          address := None;
          treasuryAddress := treasury;
          svc_destinationChainId := default 8453 destination |};
     provider := None |}.

Definition with_provider (p : option BrowserProvider) (o : PaymentObject)
  : PaymentObject :=
  {| service := service o; provider := p |}.

Definition with_signer (sg : option Signer) (o : PaymentObject)
  : PaymentObject :=
  {| service :=
       {| trails := trails (service o);
          signer := sg;
          address := address (service o);
          treasuryAddress := treasuryAddress (service o);
          svc_destinationChainId := svc_destinationChainId (service o) |};
     provider := provider o |}.

Definition with_address (a : option string) (o : PaymentObject)
  : PaymentObject :=
  {| service :=
       {| trails := trails (service o);
          signer := signer (service o);
          address := a;
          treasuryAddress := treasuryAddress (service o);
          svc_destinationChainId := svc_destinationChainId (service o) |};
     provider := provider o |}.

(** [connectWallet()]: each field is assigned as soon as its value is
    there, so a call that throws half way leaves the earlier ones set. *)
Definition connectWallet (b : Browser) (o : PaymentObject)
  : (thrown + string) * PaymentObject :=
  if negb (ethereum b) then (inl (JsError "Error" "No wallet detected"), o)
  else
    let o1 := with_provider (Some InjectedProvider) o in
    match getSigner b with
    | inl e => (inl e, o1)
    | inr sg =>
        let o2 := with_signer (Some sg) o1 in
        match getAddress_of_signer b with
        | inl e => (inl e, o2)
        | inr a => (inr a, with_address (Some a) o2)
        end
    end.

Definition disconnectWallet (o : PaymentObject) : PaymentObject :=
  with_address None (with_signer None (with_provider None o)).

Definition isConnected (o : PaymentObject) : bool :=
  match address (service o) with
  | Some _ => true
  | None => false
  end.

Definition getAddress (o : PaymentObject) : option string :=
  address (service o).

Definition getChainId (b : Browser) (o : PaymentObject) : thrown + Z :=
  match provider o with
  | None => inl (JsError "Error" "Wallet not connected")
  | Some _ => getNetwork b
  end.

(** One call of [connectWallet] runs in three steps, and other calls
    can run between them: up to the first [await] (the provider is
    assigned and asked for its signer), from there to the second (the
    signer is assigned and asked for its address), and the rest (the
    address is assigned and returned). A step whose [await] is rejected
    assigns nothing and ends the call. *)
Definition connect_begin (o : PaymentObject) : PaymentObject :=
  with_provider (Some InjectedProvider) o.

Definition connect_signer (sg : Signer) (o : PaymentObject) : PaymentObject :=
  with_signer (Some sg) o.

Definition connect_address (a : string) (o : PaymentObject) : PaymentObject :=
  with_address (Some a) o.

(** What a call of [connectWallet] that is under way awaits. *)
Inductive awaited : Type := AwaitsSigner | AwaitsAddress.

(** The objects that calls of [connectWallet] and [disconnectWallet]
    make of a new one, whichever way the calls overlap: [session o s a]
    is [o] with [s] calls of [connectWallet] awaiting their signer and
    [a] calls awaiting their address. (A call of [connectWallet] that
    finds no wallet changes nothing.) *)
Inductive session : PaymentObject → nat → nat → Prop :=
| session_new key treasury destination :
    session (GamePaymentService_new key treasury destination) 0 0
| session_begin o s a :
    session o s a → session (connect_begin o) (S s) a
| session_no_signer o s a :
    session o (S s) a → session o s a
| session_signer sg o s a :
    session o (S s) a → session (connect_signer sg o) s (S a)
| session_no_address o s a :
    session o s (S a) → session o s a
| session_address adr o s a :
    session o s (S a) → session (connect_address adr o) s a
| session_disconnect o s a :
    session o s a → session (disconnectWallet o) s a.

(** The same when the calls take turns: no call of [connectWallet] or
    [disconnectWallet] starts while a [connectWallet] is under way.
    [in_turn o p] is [o] with [p] what the call under way awaits, if
    there is one. *)
Inductive in_turn : PaymentObject → option awaited → Prop :=
| in_turn_new key treasury destination :
    in_turn (GamePaymentService_new key treasury destination) None
| in_turn_begin o :
    in_turn o None → in_turn (connect_begin o) (Some AwaitsSigner)
| in_turn_no_signer o :
    in_turn o (Some AwaitsSigner) → in_turn o None
| in_turn_signer sg o :
    in_turn o (Some AwaitsSigner) →
    in_turn (connect_signer sg o) (Some AwaitsAddress)
| in_turn_no_address o :
    in_turn o (Some AwaitsAddress) → in_turn o None
| in_turn_address adr o :
    in_turn o (Some AwaitsAddress) → in_turn (connect_address adr o) None
| in_turn_disconnect o :
    in_turn o None → in_turn (disconnectWallet o) None.

End Wallet.

(* ================================================================= *)
(** * Vocabulary of the properties                                     *)
(* ================================================================= *)

Import Js Json.

Section GameVocabulary.
Import Game.

(** Whether a call goes through [notify()]. *)
Definition notifies (now : Z) (o : Op) (w : World) : bool :=
  match o with
  | AutoGenerate => negb (autoPerSecond (state w) <=? 0)
  | CheckMultiplierExpiry =>
      (1 <? multiplier (state w)) && (multiplierEndTime (state w) <? now)
  | _ => true
  end.

Definition is_earning (o : Op) : bool :=
  match o with
  | Click | AutoGenerate => true
  | _ => false
  end.

Definition sumZ (l : list Z) : Z := fold_right Z.add 0 l.

(** The order the specification asks of a notifying mutation: when a
    listener is called, the slot already holds the serialized snapshot
    it is given. *)
Definition persisted_when_notified (evs : list event) : Prop :=
  ∀ l snapshot slot,
    Notified l snapshot slot ∈ evs → slot = Some (JSON_stringify snapshot).

(** A world with the default record, one listener and an empty store. *)
Definition fresh_world : World :=
  {| state := defaultState; listeners := [0%nat];
     localStorage := ∅; log := [] |}.

(** The text [{"coins":5}]: an object with one key of the record. *)
Definition partial_record_text : string :=
  String "{" (String "034" ("coins" +:+ String "034" ":5}")).

(** The text [{"coins":1.5}]. *)
Definition fraction_record_text : string :=
  String "{" (String "034" ("coins" +:+ String "034" ":1.5}")).

(** The three counters of a record do not exceed those of another. *)
Definition counters_le (s s' : GameState) : Prop :=
  totalClicks s <= totalClicks s'
  ∧ totalCoinsEarned s <= totalCoinsEarned s'
  ∧ purchaseCount s <= purchaseCount s'.

End GameVocabulary.

Section JsonVocabulary.

(** A text that starts with neither a digit nor a fraction or exponent
    mark: what ends a numeral without a fraction and an exponent. *)
Definition ends_numeral (rest : string) : Prop :=
  match rest with
  | String c _ => digit c = None ∧ is_point c = false ∧ is_exp c = false
  | EmptyString => True
  end.

(** A key that [read_string] reads back as it is: no quote, no
    backslash, no control character. *)
Definition simple_key (key : string) : Prop :=
  ∀ r, read_string (key +:+ String "034" r) = Ok (units key) r.

End JsonVocabulary.

Section TrailsVocabulary.
Import Trails.
Context {G : Type}.

Definition timeout_error : thrown := JsError "Error" "Intent receipt timeout".

Definition not_connected_error : thrown :=
  JsError "Error" "Wallet not connected".

Definition rejected_error : thrown :=
  JsError "Error" "Transaction rejected by user".

(** The test of the [catch] block of [purchaseItem]. *)
Definition indicates_rejection (e : thrown) : bool :=
  match e with
  | JsError _ message => includes "rejected" message
  | JsNonError _ => false
  end.

(** The [message] of an error body that [request] passes on: the
    property of an object, when it is truthy. *)
Definition provider_message (body : JsVal) : option JsVal :=
  match body with
  | JObj m =>
      match m !! "message" with
      | Some v => if truthy v then Some v else None
      | None => None
      end
  | _ => None
  end.

Definition status_message (status : Z) : string :=
  "API error: " +:+ Number_toString status.

(** The message the specification gives the error of a non-2xx response:
    the [message] of the body if there is one, the status-coded message
    otherwise. *)
Definition specified_message (status : Z) (b : option JsVal) : string :=
  match b with
  | Some (JObj m) =>
      match m !! "message" with
      | Some (JStr s) => s
      | _ => status_message status
      end
  | _ => status_message status
  end.

(** What [request] returns or throws on the answer [r]. *)
Definition request_result {T} (r : reply T) : thrown + T :=
  match outcome r with
  | FetchFailed e => inl e
  | HttpOk b => b
  | HttpError status b =>
      match read_message
              (default (JObj {[ "message" := JStr "Unknown error" ]}) b) with
      | inl e => inl e
      | inr message => inl (error_of message status)
      end
  end.

(** The world once a request has been sent and answered. *)
Definition answered {T} (svc : TrailsService) (endpoint : string)
    (body : request_body) (r : reply T) (w : World G) : World G :=
  {| now := now w + latency r; game := game w;
     log := log w ++ [Request (now w) (baseUrl svc +:+ endpoint) body] |}.

(** The receipt a poll is answered with, if it is answered with one. *)
Definition receipt_of (r : reply IntentReceipt) : option IntentReceipt :=
  match outcome r with
  | HttpOk (inr receipt) => Some receipt
  | _ => None
  end.

Definition pending_poll (r : reply IntentReceipt) : Prop :=
  ∃ receipt, receipt_of r = Some receipt ∧ is_terminal receipt = false.

(** When the poll number [k + j] starts, if the poll number [k] starts
    at [t] and every poll in between is followed by a sleep of
    [interval]. *)
Fixpoint poll_time (replies : nat → reply IntentReceipt) (interval : Z)
    (k : nat) (t : Z) (j : nat) : Z :=
  match j with
  | O => t
  | S j' =>
      poll_time replies interval (S k)
        (t + latency (replies k) + interval) j'
  end.

(** The events of [n] polls, from the poll number [k] started at [t],
    each answered with a receipt and followed by a sleep. *)
Fixpoint polls_log (svc : TrailsService) (replies : nat → reply IntentReceipt)
    (id : string) (interval : Z) (k : nat) (t : Z) (n : nat) : list event :=
  match n with
  | O => []
  | S n' =>
      Request t (baseUrl svc +:+ "/v1/getIntentReceipt") (ReceiptBody id)
      :: match receipt_of (replies k) with
         | Some receipt => [Received receipt]
         | None => []
         end
      ++ Slept interval
      :: polls_log svc replies id interval (S k)
           (t + latency (replies k) + interval) n'
  end.

(** The world with one more event in its log. *)
Definition logged (e : event) (w : World G) : World G :=
  {| now := now w; game := game w; log := log w ++ [e] |}.

Definition poll_url (svc : TrailsService) : string :=
  baseUrl svc +:+ "/v1/getIntentReceipt".

(** How many times an effect was invoked. *)
Fixpoint count_effects (evs : list event) : nat :=
  match evs with
  | [] => 0
  | EffectApplied _ :: evs' => S (count_effects evs')
  | _ :: evs' => count_effects evs'
  end.

(** Events among which no receipt was received and no effect invoked. *)
Definition quiet (evs : list event) : Prop :=
  count_effects evs = 0%nat ∧ ∀ r, Received r ∉ evs.

(** What the purchase of [item] owes to a terminal receipt among the
    events [evs] of a run from [w] to [w'] with the result [res]: the
    receipt is returned, and the effect was invoked once, as the last
    thing done, if its status is [completed], and not at all otherwise. *)
Definition settles (item : ShopItem G) (res : thrown + IntentReceipt)
    (w w' : World G) (evs : list event) : Prop :=
  ∀ r, Received r ∈ evs → is_terminal r = true →
    res = inr r
    ∧ (status r = completed →
       count_effects evs = 1%nat
       ∧ last evs = Some (EffectApplied (id item))
       ∧ game w' = effect item (now w') (game w))
    ∧ (status r ≠ completed →
       count_effects evs = 0%nat ∧ game w' = game w).

(** A computation that always ends, leaves the store alone, receives
    no receipt and invokes no effect. *)
Definition quiet_run {A} (m : M G A) : Prop :=
  ∀ w, ∃ res w' evs,
    m w = Some (res, w') ∧ log w' = log w ++ evs
    ∧ game w' = game w ∧ quiet evs.

(** A computation that always ends and settles the purchase of [item]. *)
Definition settling_run (item : ShopItem G) (m : M G IntentReceipt) : Prop :=
  ∀ w, ∃ res w' evs,
    m w = Some (res, w') ∧ log w' = log w ++ evs
    ∧ settles item res w w' evs.

End TrailsVocabulary.

(** Sample inputs: a connected service, a gateway that answers every
    step and completes the intent at the third poll, and variations. *)
Section Samples.
Import Trails.

Definition sample_service : GamePaymentService :=
  {| trails := TrailsService_new "key" None;
     signer := Some BrowserSigner;
     address := Some "0xA11CE";
     treasuryAddress := "0x7EA5";
     svc_destinationChainId := 1 |}.

Definition sample_intent : Intent :=
  {| intent_id := "intent-1"; originChainId := 8453;
     destinationChainId := 1;
     originTokenAddress := NATIVE_TOKEN_ADDRESS;
     destinationTokenAddress := NATIVE_TOKEN_ADDRESS;
     originTokenAmount := "230000000000000";
     destinationTokenAmount := "229000000000000";
     ownerAddress := "0xA11CE"; destinationToAddress := "0x7EA5";
     expiresAt := 1700000000000 |}.

Definition sample_quote : Quote :=
  {| intent := sample_intent;
     fromAmount := "230000000000000"; fromAmountMin := "230000000000000";
     toAmount := "229000000000000"; toAmountMin := "228000000000000";
     totalFeeAmount := "1000000000000"; totalFeeAmountUsd := "0.01";
     priceImpact := "0.1"; completionEstimateSeconds := 30;
     route := "RELAY" |}.

Definition sample_receipt (s : Status) : IntentReceipt :=
  {| intentId := "intent-1"; status := s; originTxHash := None;
     destinationTxHash := None; error := None |}.

Definition answer {T : Type} (ms : Z) (v : T) : reply T :=
  {| latency := ms; outcome := HttpOk (inr v) |}.

(** Polls answered [pending] twice and then with the status [last]. *)
Definition sample_polls (last : Status) (k : nat) : reply IntentReceipt :=
  answer 5 (sample_receipt (if (k <? 2)%nat then pending else last)).

Definition sample_env (last : Status) : Env :=
  {| parseEther := λ _, inr 230000000000000;
     quote_reply := answer 10 sample_quote;
     commit_reply :=
       answer 10 {| commit_intentId := "intent-1";
                    commit_expiresAt := 1700000000000 |};
     execute_reply := answer 10 {| txHash := "0xFEED" |};
     receipt_reply := sample_polls last |}.

(** The same gateway, but the execution is refused with an error body
    that carries a message. *)
Definition refusing_env (status : Z) (message : string) : Env :=
  {| parseEther := parseEther (sample_env completed);
     quote_reply := quote_reply (sample_env completed);
     commit_reply := commit_reply (sample_env completed);
     execute_reply :=
       {| latency := 10;
          outcome :=
            HttpError status (Some (JObj {[ "message" := JStr message ]})) |};
     receipt_reply := receipt_reply (sample_env completed) |}.

Definition click_boost : ShopItem Game.World :=
  {| id := "click-boost";
     name := "Click Boost";
     description := "+10 coins per click permanently. Stack infinitely!";
     priceEth := (23 # 100000)%Q;
     effect := λ _ g, Game.addClickPower 10 g |}.

Definition sample_world : World Game.World :=
  {| now := 1000; game := fresh_world; log := [] |}.

End Samples.

Section MoreGameVocabulary.
Import Game Scene.

(** The events a call added to the log of [w]. *)
Definition new_events (w w' : World) : list event :=
  drop (length (log w)) (log w').

(** How many times the listener [l] was called. *)
Fixpoint notified_count (l : listener) (evs : list event) : nat :=
  match evs with
  | [] => 0
  | Notified l' _ _ :: evs' =>
      if bool_decide (l' = l) then S (notified_count l evs')
      else notified_count l evs'
  | _ :: evs' => notified_count l evs'
  end.

(** The slot holds the serialization of the current record. *)
Definition in_sync (w : World) : Prop :=
  localStorage w !! STORAGE_KEY = Some (JSON_stringify (state w)).

Definition is_purchase (o : Op) : bool :=
  match o with
  | AddClickPower _ | AddAutoPerSecond _ | SetMultiplier _ _ => true
  | _ => false
  end.

Definition is_click (o : Op) : bool :=
  match o with
  | Click => true
  | _ => false
  end.

Definition is_reset (o : Op) : bool :=
  match o with
  | ResetState => true
  | _ => false
  end.

(** How many of the calls satisfy [p]. *)
Definition count_calls (p : Op → bool) (calls : list (Z * Op)) : Z :=
  Z.of_nat (length (List.filter (λ c, p c.2) calls)).

(** How many of the clicks ran the celebration. *)
Definition celebrations (fxs : list ClickFx) : Z :=
  Z.of_nat (length (List.filter celebration fxs)).

End MoreGameVocabulary.

Section FormatVocabulary.
Import Format.

(** [p] holds of the [k] integers from [n] on. *)
Fixpoint all_from (k : nat) (n : Z) (p : Z → bool) : bool :=
  match k with
  | O => true
  | S k' => p n && all_from k' (n + 1) p
  end.

Definition shows (text : string) (num : Z) : bool :=
  match formatNumber num with
  | Some s => String.eqb s text
  | None => false
  end.

End FormatVocabulary.

Section MoreTrailsVocabulary.
Import Trails.
Context {G : Type}.

(** How many requests were sent. *)
Fixpoint count_requests (evs : list event) : nat :=
  match evs with
  | [] => 0
  | Request _ _ _ :: evs' => S (count_requests evs')
  | _ :: evs' => count_requests evs'
  end.

(** An event of the wait for the receipt of the intent [id]: a poll for
    it, a receipt, a sleep, or the effect at the end; never another
    request and never a status update. *)
Definition waiting_event (svc : TrailsService) (id : string) (e : event)
  : Prop :=
  match e with
  | Request _ url body => url = poll_url svc ∧ body = ReceiptBody id
  | StatusUpdate _ _ => False
  | Received _ | Slept _ | EffectApplied _ => True
  end.

(** What the status sink is told. *)
Definition status_events (onStatusUpdate : option sink) (msg : string)
  : list event :=
  match onStatusUpdate with
  | Some k => [StatusUpdate k msg]
  | None => []
  end.

(** The quote that [purchaseItem] asks for. *)
Definition purchase_quote (svc : GamePaymentService) (owner : string)
    (fromChainId amount : Z) : request_body :=
  QuoteBody
    {| req_ownerAddress := owner;
       req_originChainId := fromChainId;
       req_originTokenAddress := NATIVE_TOKEN_ADDRESS;
       req_originTokenAmount := amount;
       req_destinationChainId := svc_destinationChainId svc;
       req_destinationTokenAddress := NATIVE_TOKEN_ADDRESS;
       req_destinationToAddress := treasuryAddress svc;
       req_tradeType := EXACT_INPUT;
       req_options := None;
       req_toCalldata := None |}
    (5 # 1000)%Q AUTO.

(** What the [catch] block of [purchaseItem] rethrows for [e]. *)
Definition caught (e : thrown) : thrown :=
  if indicates_rejection e then rejected_error else e.

(** The world [ms] milliseconds and the events [evs] later. *)
Definition after (w : World G) (ms : Z) (evs : list event) : World G :=
  {| now := now w + ms; game := game w; log := log w ++ evs |}.

(** The effect and the result of a purchase agree: a returned receipt
    is terminal and was received; and either no effect was invoked, the
    store is as it was and the result is not a completed receipt, or the
    effect was invoked once, on the store as it was, and the result is a
    completed receipt. *)
Definition guarded (item : ShopItem G) (res : thrown + IntentReceipt)
    (w w' : World G) (evs : list event) : Prop :=
  (∀ r, res = inr r → is_terminal r = true ∧ Received r ∈ evs)
  ∧ ((count_effects evs = 0%nat ∧ game w' = game w
      ∧ ∀ r, res = inr r → status r ≠ completed)
     ∨ (count_effects evs = 1%nat
        ∧ game w' = effect item (now w') (game w)
        ∧ ∃ r, res = inr r ∧ status r = completed)).

(** A computation that always ends, with the effect and the result in
    agreement. *)
Definition guarded_run (item : ShopItem G) (m : M G IntentReceipt) : Prop :=
  ∀ w, ∃ res w' evs,
    m w = Some (res, w') ∧ log w' = log w ++ evs
    ∧ guarded item res w w' evs.

End MoreTrailsVocabulary.

Section WalletVocabulary.
Import Trails Wallet.

(** The fields set by the constructor. *)
Definition same_config (o o' : PaymentObject) : Prop :=
  trails (service o') = trails (service o)
  ∧ treasuryAddress (service o') = treasuryAddress (service o)
  ∧ svc_destinationChainId (service o') = svc_destinationChainId (service o).

End WalletVocabulary.

(** A gateway whose second poll is answered with a 500 and no JSON. *)
Section MoreSamples.
Import Trails.

Definition failing_polls (k : nat) : reply IntentReceipt :=
  if (k <? 1)%nat then answer 5 (sample_receipt pending)
  else {| latency := 5; outcome := HttpError 500 None |}.

(** A wallet that connects, and one whose signer gives no address. *)
Definition sample_browser : Wallet.Browser :=
  {| Wallet.ethereum := true;
     Wallet.getSigner := inr BrowserSigner;
     Wallet.getAddress_of_signer := inr "0xA11CE";
     Wallet.getNetwork := inr 8453 |}.

Definition locked_browser : Wallet.Browser :=
  {| Wallet.ethereum := true;
     Wallet.getSigner := inr BrowserSigner;
     Wallet.getAddress_of_signer := inl (JsError "Error" "wallet is locked");
     Wallet.getNetwork := inr 8453 |}.

End MoreSamples.

(* ================================================================= *)
(** * Properties                                                       *)
(* ================================================================= *)

(* ================================================================= *)
(** ** GameStateManager                                                *)
(* ================================================================= *)

Section GameFacts.
Import Game.

Lemma notify_state w : state (notify w) = state w.
Proof. reflexivity. Qed.

Lemma notify_listeners w : listeners (notify w) = listeners w.
Proof. reflexivity. Qed.

Lemma notify_log w :
  log (notify w) =
    log w
    ++ map (λ l, Notified l (state w) (localStorage w !! STORAGE_KEY))
         (listeners w)
    ++ [Stored STORAGE_KEY (JSON_stringify (state w))].
Proof. unfold notify, saveState; simpl. by rewrite <- app_assoc. Qed.

Lemma notify_localStorage w :
  localStorage (notify w) =
    <[STORAGE_KEY := JSON_stringify (state w)]> (localStorage w).
Proof. reflexivity. Qed.

(** A call that does not go through [notify()] changes nothing. *)
Lemma run_op_silent now o w :
  notifies now o w = false → snd (run_op now o w) = w.
Proof.
  destruct o; simpl; try discriminate.
  - unfold autoGenerate. intros H.
    apply negb_false_iff in H. by rewrite H.
  - unfold checkMultiplierExpiry. intros H. by rewrite H.
Qed.

(** A call that goes through [notify()] is a change of the record
    followed by [notify]. *)
Lemma run_op_notifying now o w :
  notifies now o w = true →
  ∃ s', snd (run_op now o w) = notify (with_state s' w).
Proof.
  destruct o; simpl; intros H; try (eexists; reflexivity).
  - unfold autoGenerate. apply negb_true_iff in H. rewrite H.
    eexists; reflexivity.
  - unfold checkMultiplierExpiry. rewrite H. eexists; reflexivity.
Qed.

(** Scenario A of the specification: a click on the fresh record. *)
Example click_fresh :
  fst (click fresh_world) = 1
  ∧ coins (state (snd (click fresh_world))) = 1
  ∧ totalClicks (state (snd (click fresh_world))) = 1.
Proof. repeat split. Qed.

(** Scenario B: a click with click power 5 under a multiplier of 2. *)
Example click_doubled :
  fst (click (setMultiplier 0 2 1000 (addClickPower 4 fresh_world))) = 10.
Proof. reflexivity. Qed.

(* --------------------------------------------------------------- *)
(** *** autoGenerate                                                *)

(** C7. [autoGenerate()] with [autoPerSecond <= 0] returns 0 and leaves
    the whole world as it was (no listener is called, nothing is
    stored, no field changes); with [autoPerSecond > 0] it returns
    [autoPerSecond * multiplier], adds that amount to [coins] and to
    [totalCoinsEarned], and changes no other field. *)
Theorem C7_autoGenerate (w : World) :
  (autoPerSecond (state w) <= 0 → autoGenerate w = (0, w))
  ∧ (0 < autoPerSecond (state w) →
     let earned := autoPerSecond (state w) * multiplier (state w) in
     ∃ w', autoGenerate w = (earned, w')
           ∧ state w' =
               {| coins := coins (state w) + earned;
                  clickPower := clickPower (state w);
                  autoPerSecond := autoPerSecond (state w);
                  multiplier := multiplier (state w);
                  multiplierEndTime := multiplierEndTime (state w);
                  totalClicks := totalClicks (state w);
                  totalCoinsEarned := totalCoinsEarned (state w) + earned;
                  purchaseCount := purchaseCount (state w) |}).
Proof.
  split; intros H; unfold autoGenerate.
  - apply Z.leb_le in H. by rewrite H.
  - apply Z.leb_gt in H. rewrite H. eexists. split; reflexivity.
Qed.

Lemma C7_autoGenerate_witness :
  autoGenerate fresh_world = (0, fresh_world)
  ∧ fst (autoGenerate (addAutoPerSecond 5 fresh_world)) = 5.
Proof.
  split.
  - apply (proj1 (C7_autoGenerate fresh_world)). simpl. lia.
  - destruct (proj2 (C7_autoGenerate (addAutoPerSecond 5 fresh_world)))
      as (w' & Hrun & _); [simpl; lia |].
    rewrite Hrun. reflexivity.
Defined.

(* --------------------------------------------------------------- *)
(** *** checkMultiplierExpiry                                       *)

Lemma checkMultiplierExpiry_false now w :
  ¬ (1 < multiplier (state w) ∧ multiplierEndTime (state w) < now) →
  checkMultiplierExpiry now w = (false, w).
Proof.
  intros H. unfold checkMultiplierExpiry.
  destruct (1 <? multiplier (state w)) eqn:Hm; [| reflexivity].
  destruct (multiplierEndTime (state w) <? now) eqn:He; [| reflexivity].
  exfalso. apply H. split; [by apply Z.ltb_lt | by apply Z.ltb_lt].
Qed.

Lemma checkMultiplierExpiry_true now w :
  1 < multiplier (state w) → multiplierEndTime (state w) < now →
  checkMultiplierExpiry now w =
    (true,
     notify (with_state
       {| coins := coins (state w); clickPower := clickPower (state w);
          autoPerSecond := autoPerSecond (state w); multiplier := 1;
          multiplierEndTime := 0; totalClicks := totalClicks (state w);
          totalCoinsEarned := totalCoinsEarned (state w);
          purchaseCount := purchaseCount (state w) |} w)).
Proof.
  intros Hm He. unfold checkMultiplierExpiry.
  apply Z.ltb_lt in Hm, He. by rewrite Hm, He.
Qed.

(** C6. [checkMultiplierExpiry()] returns [true], sets [multiplier] to 1
    and [multiplierEndTime] to 0 and notifies exactly when
    [multiplier > 1] and the clock is past [multiplierEndTime];
    otherwise it returns [false] and leaves the world unchanged. After
    [setMultiplier(m, d)] with [m > 1] at time [t0], a call up to
    [t0 + d] returns [false] and changes nothing, and a call after it
    returns [true], after which every call returns [false]. *)
Theorem C6_checkMultiplierExpiry :
  (∀ now w,
     (1 < multiplier (state w) ∧ multiplierEndTime (state w) < now →
      ∃ w', checkMultiplierExpiry now w = (true, w')
            ∧ multiplier (state w') = 1
            ∧ multiplierEndTime (state w') = 0
            ∧ log w' =
                log w
                ++ map (λ l, Notified l (state w')
                               (localStorage w !! STORAGE_KEY))
                     (listeners w)
                ++ [Stored STORAGE_KEY (JSON_stringify (state w'))])
     ∧ (¬ (1 < multiplier (state w) ∧ multiplierEndTime (state w) < now) →
        checkMultiplierExpiry now w = (false, w)))
  ∧ (∀ t0 m d w,
       1 < m →
       let w1 := setMultiplier t0 m d w in
       (∀ t, t <= t0 + d → checkMultiplierExpiry t w1 = (false, w1))
       ∧ (∀ t, t0 + d < t →
            ∃ w2, checkMultiplierExpiry t w1 = (true, w2)
                  ∧ multiplier (state w2) = 1
                  ∧ multiplierEndTime (state w2) = 0
                  ∧ ∀ t', checkMultiplierExpiry t' w2 = (false, w2))).
Proof.
  split.
  - intros now w. split.
    + intros [Hm He]. eexists. split.
      * by apply checkMultiplierExpiry_true.
      * split; [reflexivity |]. split; [reflexivity |].
        by rewrite notify_log.
    + apply checkMultiplierExpiry_false.
  - intros t0 m d w Hm w1. split.
    + intros t Ht. apply checkMultiplierExpiry_false.
      subst w1. simpl. lia.
    + intros t Ht. eexists. split.
      * apply checkMultiplierExpiry_true; subst w1; simpl; lia.
      * split; [reflexivity |]. split; [reflexivity |].
        intros t'. apply checkMultiplierExpiry_false. simpl. lia.
Qed.

Lemma C6_checkMultiplierExpiry_witness :
  let w1 := setMultiplier 1000 2 60000 fresh_world in
  checkMultiplierExpiry 61000 w1 = (false, w1)
  ∧ fst (checkMultiplierExpiry 61001 w1) = true
  ∧ fst (checkMultiplierExpiry 61002
           (snd (checkMultiplierExpiry 61001 w1))) = false.
Proof.
  intros w1.
  destruct (proj2 C6_checkMultiplierExpiry 1000 2 60000 fresh_world)
    as [Hbefore Hafter]; [lia |].
  split; [apply Hbefore; lia |].
  destruct (Hafter 61001) as (w2 & Hrun & _ & _ & Hlater); [lia |].
  fold w1 in Hrun. rewrite Hrun. simpl. split; [reflexivity |].
  by rewrite Hlater.
Defined.

(* --------------------------------------------------------------- *)
(** *** Order of the steps of a notifying mutation                  *)

(** C3, as the specification states it, fails: on a click in a fresh
    world the listener is called while the slot is still empty. *)
Lemma C3_listener_called_before_store :
  ¬ (∀ now o w,
       persisted_when_notified
         (drop (length (log w)) (log (snd (run_op now o w))))).
Proof.
  intros H.
  specialize (H 0 Click fresh_world 0%nat
                (state (snd (click fresh_world))) None).
  simpl in H. discriminate H. apply list_elem_of_here.
Qed.

(** C3, amended. A notifying mutation runs in the order mutate, notify,
    persist: every listener, in registration order, is called with the
    record as it is after the mutation while the slot still holds what
    it held before the call, and only then the record is serialized
    into the slot. A call that does not notify changes nothing. *)
Theorem C3_mutate_notify_persist (now : Z) (o : Op) (w : World) :
  let w' := snd (run_op now o w) in
  (notifies now o w = true →
     listeners w' = listeners w
     ∧ log w' =
         log w
         ++ map (λ l, Notified l (state w') (localStorage w !! STORAGE_KEY))
              (listeners w)
         ++ [Stored STORAGE_KEY (JSON_stringify (state w'))]
     ∧ localStorage w' =
         <[STORAGE_KEY := JSON_stringify (state w')]> (localStorage w))
  ∧ (notifies now o w = false → w' = w).
Proof.
  intros w'. split.
  - intros H. destruct (run_op_notifying now o w H) as [s' Hs'].
    subst w'. rewrite Hs'. rewrite notify_log. by rewrite notify_state.
  - apply run_op_silent.
Qed.

Lemma C3_mutate_notify_persist_witness :
  log (snd (run_op 0 Click fresh_world)) =
    [Notified 0%nat (state (snd (click fresh_world))) None;
     Stored STORAGE_KEY (JSON_stringify (state (snd (click fresh_world))))]
  ∧ snd (run_op 0 AutoGenerate fresh_world) = fresh_world.
Proof.
  split.
  - destruct (proj1 (C3_mutate_notify_persist 0 Click fresh_world))
      as (_ & Hlog & _); [reflexivity |].
    rewrite Hlog. reflexivity.
  - apply (proj2 (C3_mutate_notify_persist 0 AutoGenerate fresh_world)).
    reflexivity.
Defined.

(* --------------------------------------------------------------- *)
(** *** The counters                                                *)

(** C4, as the specification states it, fails: [resetState()] after one
    click takes [totalClicks] from 1 back to 0. *)
Lemma C4_reset_lowers_counters :
  ¬ (∀ now o w, counters_le (state w) (state (snd (run_op now o w)))).
Proof.
  intros H.
  destruct (H 0 ResetState (snd (click fresh_world))) as [Hclicks _].
  simpl in Hclicks. lia.
Qed.

(** A click with a negative click power lowers [totalCoinsEarned]:
    the sign conditions of the amended C4 are needed. *)
Lemma click_negative_power_lowers_total :
  let w := addClickPower (-5) fresh_world in
  totalCoinsEarned (state (snd (click w))) < totalCoinsEarned (state w).
Proof. simpl. lia. Qed.

(** C4, amended. Under every operation other than [resetState],
    [totalClicks] and [purchaseCount] never decrease, and
    [totalCoinsEarned] never decreases when [clickPower] and
    [multiplier] are not negative; [resetState] sets the three counters
    to 0. *)
Theorem C4_counters_monotone (now : Z) (o : Op) (w : World) :
  let s := state w in
  let s' := state (snd (run_op now o w)) in
  (o ≠ ResetState →
     totalClicks s <= totalClicks s'
     ∧ purchaseCount s <= purchaseCount s'
     ∧ (0 <= clickPower s → 0 <= multiplier s →
        totalCoinsEarned s <= totalCoinsEarned s'))
  ∧ (o = ResetState →
     totalClicks s' = 0 ∧ totalCoinsEarned s' = 0 ∧ purchaseCount s' = 0).
Proof.
  intros s s'. subst s s'. split.
  - intros Hne. destruct o; simpl; try congruence;
      try (split; [lia | split; [lia | intros; nia]]).
    + unfold autoGenerate.
      destruct (autoPerSecond (state w) <=? 0) eqn:Ha; simpl.
      * split; [lia | split; [lia | intros; lia]].
      * apply Z.leb_gt in Ha. split; [lia | split; [lia | intros; nia]].
    + unfold checkMultiplierExpiry.
      destruct ((1 <? multiplier (state w))
                && (multiplierEndTime (state w) <? now)); simpl;
        (split; [lia | split; [lia | intros; lia]]).
  - intros ->. simpl. auto.
Qed.

Lemma C4_counters_monotone_witness :
  totalClicks (state fresh_world)
    <= totalClicks (state (snd (run_op 0 Click fresh_world)))
  ∧ totalClicks (state (snd (run_op 0 ResetState
                               (snd (click fresh_world))))) = 0.
Proof.
  split.
  - destruct (proj1 (C4_counters_monotone 0 Click fresh_world))
      as (H & _); [discriminate | exact H].
  - destruct (proj2 (C4_counters_monotone 0 ResetState
                       (snd (click fresh_world))))
      as (H & _); [reflexivity | exact H].
Defined.

(* --------------------------------------------------------------- *)
(** *** Coins and total coins earned                                *)

Lemma run_op_earning now o w :
  is_earning o = true →
  let r := fst (run_op now o w) in
  let s' := state (snd (run_op now o w)) in
  coins s' = coins (state w) + earned_of r
  ∧ totalCoinsEarned s' = totalCoinsEarned (state w) + earned_of r.
Proof.
  destruct o; simpl; try discriminate; intros _.
  - split; reflexivity.
  - unfold autoGenerate.
    destruct (autoPerSecond (state w) <=? 0); simpl; lia.
Qed.

Lemma run_ops_earning calls :
  ∀ w, Forall (λ c, is_earning c.2 = true) calls →
  let rs := fst (run_ops calls w) in
  let s' := state (snd (run_ops calls w)) in
  coins s' = coins (state w) + sumZ (map earned_of rs)
  ∧ totalCoinsEarned s' =
      totalCoinsEarned (state w) + sumZ (map earned_of rs).
Proof.
  induction calls as [| [now o] calls IH]; intros w Hall; simpl.
  - lia.
  - apply Forall_cons in Hall as [Ho Hall]. simpl in Ho.
    pose proof (run_op_earning now o w Ho) as [Hc Ht].
    destruct (run_op now o w) as [r w1]. simpl in Hc, Ht.
    specialize (IH w1 Hall).
    destruct (run_ops calls w1) as [rs w2]. simpl in *. lia.
Qed.

(** Every operation changes [coins] and [totalCoinsEarned] by the same
    amount, or sets both to 0. *)
Lemma run_op_coins_total now o w :
  coins (state w) = totalCoinsEarned (state w) →
  coins (state (snd (run_op now o w)))
  = totalCoinsEarned (state (snd (run_op now o w))).
Proof.
  intros H. destruct o; simpl; try lia.
  - unfold autoGenerate.
    destruct (autoPerSecond (state w) <=? 0); simpl; lia.
  - unfold checkMultiplierExpiry.
    destruct ((1 <? multiplier (state w))
              && (multiplierEndTime (state w) <? now)); simpl; lia.
Qed.

Lemma reachable_coins_total w :
  reachable w → coins (state w) = totalCoinsEarned (state w).
Proof.
  induction 1 as [| l w _ IH | l w _ IH | now o w _ IH]; simpl; auto.
  by apply run_op_coins_total.
Qed.

(** [addCoins], which the scenes do not call, keeps the equality too. *)
Lemma addCoins_coins_total amount w :
  coins (state w) = totalCoinsEarned (state w) →
  coins (state (addCoins amount w))
  = totalCoinsEarned (state (addCoins amount w)).
Proof. simpl. lia. Qed.

(** C5. From the default record, after any sequence of [click()] and
    [autoGenerate()] calls, [totalCoinsEarned] is the sum of the
    amounts the calls returned and [coins] equals [totalCoinsEarned];
    and [coins <= totalCoinsEarned] in every state the named operations
    reach from the default record. *)
Theorem C5_coins_and_total :
  (∀ calls ws ls evs,
     Forall (λ c, is_earning c.2 = true) calls →
     let start := {| state := defaultState; listeners := ws;
                     localStorage := ls; log := evs |} in
     let rs := fst (run_ops calls start) in
     let s' := state (snd (run_ops calls start)) in
     totalCoinsEarned s' = sumZ (map earned_of rs)
     ∧ coins s' = totalCoinsEarned s')
  ∧ (∀ w, reachable w → coins (state w) <= totalCoinsEarned (state w)).
Proof.
  split.
  - intros calls ws ls evs Hall start rs s'.
    destruct (run_ops_earning calls start Hall) as [Hc Ht].
    subst rs s'. simpl in Hc, Ht. lia.
  - intros w Hw. rewrite (reachable_coins_total w Hw). lia.
Qed.

Lemma C5_coins_and_total_witness :
  let calls := [(0, Click); (1000, AutoGenerate); (1500, Click)] in
  totalCoinsEarned (state (snd (run_ops calls fresh_world))) = 2
  ∧ coins (state (snd (run_ops calls fresh_world))) = 2
  ∧ coins (state (setMultiplier 0 2 1000 fresh_world))
    <= totalCoinsEarned (state (setMultiplier 0 2 1000 fresh_world)).
Proof.
  intros calls.
  destruct (proj1 C5_coins_and_total calls [0%nat] ∅ []) as [Ht Hc].
  { repeat constructor. }
  split; [exact Ht |]. split; [exact (eq_trans Hc Ht) |].
  apply (proj2 C5_coins_and_total).
  apply (reach_op 0 (SetMultiplier 2 1000)). apply reach_init.
Defined.

End GameFacts.

(* ================================================================= *)
(** ** JSON: reading back what the game writes                         *)
(* ================================================================= *)

Section JsonFacts.
Import Game.

(* --------------------------------------------------------------- *)
(** *** The parser ends                                             *)

Lemma skip_ws_length s : (String.length (skip_ws s) <= String.length s)%nat.
Proof.
  induction s as [| c s IH]; [reflexivity |].
  cbn [skip_ws]. destruct (is_ws c); cbn [String.length]; lia.
Qed.

Lemma strip_length lit : ∀ s rest,
  strip lit s = Some rest → (String.length rest <= String.length s)%nat.
Proof.
  induction lit as [| a lit IH]; intros s rest H.
  - cbn in H. by injection H as ->.
  - destruct s as [| b s]; [discriminate |]. cbn [strip] in H.
    destruct (Ascii.eqb a b); [| discriminate].
    apply IH in H. cbn [String.length]. lia.
Qed.

Lemma read_digits_length s : ∀ u rest,
  read_digits s = (u, rest) →
  (String.length rest <= String.length s)%nat
  ∧ (u ≠ Nil → (String.length rest < String.length s)%nat).
Proof.
  induction s as [| c s IH]; intros u rest H; cbn [read_digits] in H.
  - injection H as <- <-. split; [reflexivity | done].
  - destruct (digit c) as [d |].
    + destruct (read_digits s) as [u' rest'] eqn:E.
      injection H as <- <-. destruct (IH u' rest' eq_refl) as [Hle _].
      cbn [String.length]. split; [lia | intros _; lia].
    + injection H as <- <-. split; [reflexivity | done].
Qed.

Lemma read_fraction_length s f rest :
  read_fraction s = Some (f, rest) →
  (String.length rest <= String.length s)%nat.
Proof.
  destruct s as [| c s]; cbn [read_fraction]; [by intros [= _ <-] |].
  destruct (is_point c); [| by intros [= _ <-]].
  destruct (read_digits s) as [u r] eqn:E.
  destruct (uint_beq u Nil); [discriminate |]. intros [= _ <-].
  destruct (read_digits_length s u r E) as [Hle _].
  cbn [String.length]. lia.
Qed.

Lemma read_exponent_length s x rest :
  read_exponent s = Some (x, rest) →
  (String.length rest <= String.length s)%nat.
Proof.
  destruct s as [| c s]; cbn [read_exponent]; [by intros [= _ <-] |].
  destruct (is_exp c); [| by intros [= _ <-]].
  destruct (match s with
            | String sign t => _
            | EmptyString => _
            end) as [neg s1] eqn:Es.
  assert (Hs1 : (String.length s1 <= String.length s)%nat).
  { destruct s as [| sign t]; [by injection Es as _ <- |].
    destruct (Ascii.eqb sign "-"); [injection Es as _ <-; cbn; lia |].
    destruct (Ascii.eqb sign "+"); injection Es as _ <-; cbn; lia. }
  destruct (read_digits s1) as [u r] eqn:E.
  destruct (uint_beq u Nil); [discriminate |]. intros [= _ <-].
  destruct (read_digits_length s1 u r E) as [Hle _].
  cbn [String.length]. lia.
Qed.

Lemma read_number_length s x rest :
  read_number s = Ok x rest →
  (String.length rest < String.length s)%nat.
Proof.
  unfold read_number.
  destruct (match s with
            | String sign s' => _
            | EmptyString => _
            end) as [neg s1] eqn:Es.
  assert (Hs1 : (String.length s1 <= String.length s)%nat).
  { destruct s as [| sign s']; [by injection Es as _ <- |].
    destruct (Ascii.eqb sign "-"); injection Es as _ <-; cbn; lia. }
  destruct (read_digits s1) as [u r1] eqn:E1.
  destruct (uint_beq u Nil) eqn:Hnil; [discriminate |].
  destruct (negb (uint_beq (unorm u) u)); [discriminate |].
  destruct (read_fraction r1) as [[f r2] |] eqn:E2; [| discriminate].
  destruct (read_exponent r2) as [[e r3] |] eqn:E3; [| discriminate].
  intros [= _ <-].
  destruct (read_digits_length s1 u r1 E1) as [_ Hlt].
  apply read_fraction_length in E2. apply read_exponent_length in E3.
  assert (u ≠ Nil) by (intros ->; discriminate Hnil).
  specialize (Hlt ltac:(done)). lia.
Qed.

Lemma read_number_fuel s : read_number s ≠ NoFuel.
Proof.
  unfold read_number.
  destruct (match s with
            | String sign s' => _
            | EmptyString => _
            end) as [neg s1].
  destruct (read_digits s1) as [u r1].
  destruct (uint_beq u Nil); [done |].
  destruct (negb (uint_beq (unorm u) u)); [done |].
  destruct (read_fraction r1) as [[f r2] |]; [| done].
  by destruct (read_exponent r2) as [[e r3] |].
Qed.

Lemma read_string_spec n : ∀ s,
  (String.length s <= n)%nat →
  read_string s ≠ NoFuel
  ∧ ∀ k rest, read_string s = Ok k rest →
              (String.length rest < String.length s)%nat.
Proof.
  assert (Hcons : ∀ u (r : res (list N)) m,
            (r ≠ NoFuel
             ∧ ∀ k rest, r = Ok k rest → (String.length rest < m)%nat) →
            cons_unit u r ≠ NoFuel
            ∧ ∀ k rest, cons_unit u r = Ok k rest →
                        (String.length rest < S m)%nat).
  { intros u [k' rest' | |] m [Hne Hlt]; cbn; [| done | done].
    split; [done |]. intros k rest [= _ <-].
    specialize (Hlt k' rest' eq_refl). lia. }
  assert (Hweak : ∀ (r : res (list N)) m m',
            (m <= m')%nat →
            (r ≠ NoFuel
             ∧ ∀ k rest, r = Ok k rest → (String.length rest < m)%nat) →
            r ≠ NoFuel
            ∧ ∀ k rest, r = Ok k rest → (String.length rest < m')%nat).
  { intros r m m' Hm [Hne Hlt]. split; [exact Hne |].
    intros k rest H. specialize (Hlt k rest H). lia. }
  induction n as [| n IH]; intros s Hn.
  { destruct s; [by split | cbn in Hn; lia]. }
  destruct s as [| c s]; [by split |]. cbn [String.length] in Hn.
  cbn [read_string].
  destruct (Ascii.eqb c "034").
  { split; [done |]. intros k rest [= _ <-]. cbn. lia. }
  destruct (Ascii.eqb c "\").
  - destruct s as [| e s]; [by split |].
    cbn [String.length] in Hn.
    destruct (Ascii.eqb e "u").
    + destruct s as [| h3 [| h2 [| h1 [| h0 s]]]]; try by split.
      destruct (hex4 h3 h2 h1 h0); [| by split].
      cbn [String.length] in *.
      apply (Hweak _ (S (String.length s))); [lia |].
      apply Hcons, IH. lia.
    + destruct (unescape e); [| by split].
      cbn [String.length].
      apply (Hweak _ (S (String.length s))); [lia |].
      apply Hcons, IH. lia.
  - destruct (nat_of_ascii c <? 32)%nat; [by split |].
    cbn [String.length]. apply Hcons, IH. lia.
Qed.

Lemma read_string_length s k rest :
  read_string s = Ok k rest → (String.length rest < String.length s)%nat.
Proof. apply (read_string_spec (String.length s) s). lia. Qed.

Lemma read_string_fuel s : read_string s ≠ NoFuel.
Proof. apply (read_string_spec (String.length s) s). lia. Qed.

Lemma parse_value_unfold fuel s :
  parse_value (S fuel) s =
    match skip_ws s with
    | EmptyString => Err
    | String c r =>
        if Ascii.eqb c "n" then literal "ull" VNull r
        else if Ascii.eqb c "t" then literal "rue" (VBool true) r
        else if Ascii.eqb c "f" then literal "alse" (VBool false) r
        else if Ascii.eqb c "034" then res_map VStr (read_string r)
        else if Ascii.eqb c "[" then
          match skip_ws r with
          | String c' rest =>
              if Ascii.eqb c' "]" then Ok (VArr []) rest
              else parse_elements fuel r []
          | EmptyString => parse_elements fuel r []
          end
        else if Ascii.eqb c "{" then
          match skip_ws r with
          | String c' rest =>
              if Ascii.eqb c' "}" then Ok (VObj ∅) rest
              else parse_members fuel r ∅
          | EmptyString => parse_members fuel r ∅
          end
        else res_map VNum (read_number (String c r))
    end.
Proof. reflexivity. Qed.

Lemma parse_elements_unfold fuel s acc :
  parse_elements (S fuel) s acc =
    match parse_value fuel s with
    | Ok v r =>
        match skip_ws r with
        | String c rest =>
            if Ascii.eqb c "," then parse_elements fuel rest (acc ++ [v])
            else if Ascii.eqb c "]" then Ok (VArr (acc ++ [v])) rest
            else Err
        | EmptyString => Err
        end
    | Err => Err
    | NoFuel => NoFuel
    end.
Proof. reflexivity. Qed.

Lemma parse_members_unfold fuel s acc :
  parse_members (S fuel) s acc =
    match skip_ws s with
    | String q r =>
        if negb (Ascii.eqb q "034") then Err
        else
          match read_string r with
          | Ok k r1 =>
              match skip_ws r1 with
              | String c r2 =>
                  if negb (Ascii.eqb c ":") then Err
                  else
                    match parse_value fuel r2 with
                    | Ok v r3 =>
                        match skip_ws r3 with
                        | String c' rest =>
                            if Ascii.eqb c' "," then
                              parse_members fuel rest (<[k:=v]> acc)
                            else if Ascii.eqb c' "}" then
                              Ok (VObj (<[k:=v]> acc)) rest
                            else Err
                        | EmptyString => Err
                        end
                    | Err => Err
                    | NoFuel => NoFuel
                    end
              | EmptyString => Err
              end
          | Err => Err
          | NoFuel => NoFuel
          end
    | EmptyString => Err
    end.
Proof. reflexivity. Qed.

(** What fuel is enough, and that a value takes at least one character
    of the text. *)
Lemma parse_fuel fuel :
  (∀ s,
     (parse_value fuel s = NoFuel → (fuel < 2 * String.length s + 1)%nat)
     ∧ ∀ v rest, parse_value fuel s = Ok v rest →
                 (String.length rest < String.length s)%nat)
  ∧ (∀ s acc,
       (parse_elements fuel s acc = NoFuel →
        (fuel < 2 * String.length s + 2)%nat)
       ∧ ∀ v rest, parse_elements fuel s acc = Ok v rest →
                   (String.length rest < String.length s)%nat)
  ∧ (∀ s acc,
       (parse_members fuel s acc = NoFuel →
        (fuel < 2 * String.length s + 2)%nat)
       ∧ ∀ v rest, parse_members fuel s acc = Ok v rest →
                   (String.length rest < String.length s)%nat).
Proof.
  induction fuel as [| fuel (IHv & IHe & IHm)].
  { repeat split; intros; try discriminate; lia. }
  split; [| split].
  - intros s. rewrite parse_value_unfold.
    pose proof (skip_ws_length s) as Hws.
    destruct (skip_ws s) as [| c r]; [by split |].
    cbn [String.length] in Hws.
    assert (Hlit : ∀ lit v,
              (literal lit v r = NoFuel →
               (S fuel < 2 * String.length s + 1)%nat)
              ∧ ∀ v' rest, literal lit v r = Ok v' rest →
                           (String.length rest < String.length s)%nat).
    { intros lit v. unfold literal.
      destruct (strip lit r) as [rest' |] eqn:E; [| by split].
      apply strip_length in E. split; [done |].
      intros v' rest [= _ <-]. lia. }
    destruct (Ascii.eqb c "n"); [apply Hlit |].
    destruct (Ascii.eqb c "t"); [apply Hlit |].
    destruct (Ascii.eqb c "f"); [apply Hlit |].
    destruct (Ascii.eqb c "034").
    { pose proof (read_string_fuel r) as Hne.
      destruct (read_string r) as [k rest' | |] eqn:E; cbn; [| done | done].
      apply read_string_length in E. split; [done |].
      intros v rest [= _ <-]. lia. }
    destruct (Ascii.eqb c "[").
    { pose proof (skip_ws_length r) as Hr.
      destruct (IHe r []) as [Hfuel Hlen].
      assert (Hrec : (parse_elements fuel r [] = NoFuel →
                      (S fuel < 2 * String.length s + 1)%nat)
                     ∧ ∀ v rest, parse_elements fuel r [] = Ok v rest →
                         (String.length rest < String.length s)%nat).
      { split; [intros H; apply Hfuel in H; lia |].
        intros v rest H. apply Hlen in H. lia. }
      destruct (skip_ws r) as [| c' rest']; [exact Hrec |].
      destruct (Ascii.eqb c' "]"); [| exact Hrec].
      cbn [String.length] in Hr. split; [done |].
      intros v rest [= _ <-]. lia. }
    destruct (Ascii.eqb c "{").
    { pose proof (skip_ws_length r) as Hr.
      destruct (IHm r ∅) as [Hfuel Hlen].
      assert (Hrec : (parse_members fuel r ∅ = NoFuel →
                      (S fuel < 2 * String.length s + 1)%nat)
                     ∧ ∀ v rest, parse_members fuel r ∅ = Ok v rest →
                         (String.length rest < String.length s)%nat).
      { split; [intros H; apply Hfuel in H; lia |].
        intros v rest H. apply Hlen in H. lia. }
      destruct (skip_ws r) as [| c' rest']; [exact Hrec |].
      destruct (Ascii.eqb c' "}"); [| exact Hrec].
      cbn [String.length] in Hr. split; [done |].
      intros v rest [= _ <-]. lia. }
    pose proof (read_number_fuel (String c r)) as Hne.
    destruct (read_number (String c r)) as [x rest' | |] eqn:E; cbn;
      [| by split | done].
    apply read_number_length in E. cbn [String.length] in E.
    split; [done |]. intros v rest [= _ <-]. lia.
  - intros s acc. rewrite parse_elements_unfold.
    destruct (IHv s) as [Hfuel Hlen].
    destruct (parse_value fuel s) as [v r | |]; [| done |].
    2:{ split; [| done]. intros _. specialize (Hfuel eq_refl). lia. }
    specialize (Hlen v r eq_refl). pose proof (skip_ws_length r) as Hr.
    destruct (skip_ws r) as [| c rest']; [done |].
    cbn [String.length] in Hr.
    destruct (Ascii.eqb c ",").
    { destruct (IHe rest' (acc ++ [v])) as [Hfuel' Hlen'].
      split; [intros H; apply Hfuel' in H; lia |].
      intros v' rest H. apply Hlen' in H. lia. }
    destruct (Ascii.eqb c "]"); [| done].
    split; [done |]. intros v' rest [= _ <-]. lia.
  - intros s acc. rewrite parse_members_unfold.
    pose proof (skip_ws_length s) as Hws.
    destruct (skip_ws s) as [| q r]; [done |].
    cbn [String.length] in Hws.
    destruct (negb (Ascii.eqb q "034")); [done |].
    pose proof (read_string_fuel r) as Hne.
    destruct (read_string r) as [k r1 | |] eqn:Ek; [| done | done].
    apply read_string_length in Ek.
    pose proof (skip_ws_length r1) as Hr1.
    destruct (skip_ws r1) as [| c r2]; [done |].
    cbn [String.length] in Hr1.
    destruct (negb (Ascii.eqb c ":")); [done |].
    destruct (IHv r2) as [Hfuel Hlen].
    destruct (parse_value fuel r2) as [v r3 | |]; [| done |].
    2:{ split; [| done]. intros _. specialize (Hfuel eq_refl). lia. }
    specialize (Hlen v r3 eq_refl). pose proof (skip_ws_length r3) as Hr3.
    destruct (skip_ws r3) as [| c' rest']; [done |].
    cbn [String.length] in Hr3.
    destruct (Ascii.eqb c' ",").
    { destruct (IHm rest' (<[k:=v]> acc)) as [Hfuel' Hlen'].
      split; [intros H; apply Hfuel' in H; lia |].
      intros v' rest H. apply Hlen' in H. lia. }
    destruct (Ascii.eqb c' "}"); [| done].
    split; [done |]. intros v' rest [= _ <-]. lia.
Qed.

(** [JSON.parse] always comes to an answer. *)
Lemma JSON_parse_finishes s : JSON_parse s ≠ Unfinished.
Proof.
  unfold JSON_parse.
  destruct (parse_fuel (2 * String.length s + 1)) as (Hv & _ & _).
  destruct (Hv s) as [Hfuel _].
  destruct (parse_value (2 * String.length s + 1) s) as [v rest | |];
    [by destruct (skip_ws rest) | done |].
  specialize (Hfuel eq_refl). lia.
Qed.


(* --------------------------------------------------------------- *)
(** *** What [JSON.stringify] wrote is read back                    *)

Lemma read_digits_string_of_uint u rest :
  ends_numeral rest →
  read_digits (NilEmpty.string_of_uint u +:+ rest) = (u, rest).
Proof.
  intros Hrest.
  induction u as [| u IH | u IH | u IH | u IH | u IH | u IH | u IH
                  | u IH | u IH | u IH]; simpl;
    try (rewrite IH; reflexivity).
  destruct rest as [| c r]; [reflexivity |].
  destruct Hrest as [Hd _]. simpl. by rewrite Hd.
Qed.

(** The digits [Z.to_int] produces have no superfluous leading zero. *)
Lemma to_int_normal n :
  ∃ u, (Z.to_int n = Pos u ∨ Z.to_int n = Neg u) ∧ u ≠ Nil ∧ unorm u = u.
Proof.
  pose proof (DecimalZ.to_of (Z.to_int n)) as H.
  rewrite DecimalZ.of_to in H.
  destruct (Z.to_int n) as [u | u] eqn:E; exists u; simpl in H.
  - injection H as H. split; [by left |].
    split; [| by symmetry]. rewrite H. apply unorm_nonnil.
  - split; [by right |].
    destruct (nzhead u) eqn:Hz; try discriminate;
      injection H as H; subst u;
      (split; [discriminate |]);
      (rewrite unorm_nzhead; rewrite Hz; [reflexivity | discriminate]).
Qed.

Lemma uint_beq_refl u : uint_beq u u = true.
Proof. by apply internal_uint_dec_lb. Qed.

Lemma uint_beq_Nil u : u ≠ Nil → uint_beq u Nil = false.
Proof. by destruct u. Qed.

Lemma string_of_uint_nonnil u rest :
  u ≠ Nil →
  ∃ c r, NilEmpty.string_of_uint u +:+ rest = String c r
         ∧ is_Some (digit c).
Proof.
  destruct u; [done | ..]; intros _; simpl; eexists _, _;
    (split; [reflexivity | by eexists]).
Qed.

Lemma NilZero_string_of_uint u :
  u ≠ Nil → NilZero.string_of_uint u = NilEmpty.string_of_uint u.
Proof. by destruct u. Qed.

Lemma read_fraction_none rest :
  ends_numeral rest → read_fraction rest = Some (Nil, rest).
Proof.
  destruct rest as [| c r]; [reflexivity |]. intros (_ & Hp & _).
  cbn [read_fraction]. by rewrite Hp.
Qed.

Lemma read_exponent_none rest :
  ends_numeral rest → read_exponent rest = Some (0, rest).
Proof.
  destruct rest as [| c r]; [reflexivity |]. intros (_ & _ & He).
  cbn [read_exponent]. by rewrite He.
Qed.

(** An integer, taken as a numeral without fraction and exponent. *)
Lemma decimal_integer n : decimal n (0 - Z.of_nat (nb_digits Nil)) = inject_Z n.
Proof.
  unfold decimal. change (0 - Z.of_nat (nb_digits Nil)) with 0.
  change (Qpower (inject_Z 10) 0) with (inject_Z 1).
  transitivity (Qred (inject_Z n)); [| apply inject_Z_Qred].
  apply Qred_complete. unfold Qeq, Qmult, inject_Z. cbn [Qnum Qden]. lia.
Qed.

(** [read_number] reads back what [Number_toString] printed. *)
Lemma read_number_toString n rest :
  ends_numeral rest →
  read_number (Number_toString n +:+ rest) = Ok (inject_Z n) rest.
Proof.
  intros Hrest. unfold Number_toString.
  destruct (to_int_normal n) as (u & Hu & Hnil & Hnorm).
  pose proof (DecimalZ.of_to n) as Hof.
  destruct Hu as [Hu | Hu]; rewrite Hu in *; simpl.
  - rewrite (NilZero_string_of_uint u Hnil).
    destruct (string_of_uint_nonnil u rest Hnil) as (c & r & Hs & Hc).
    unfold read_number. rewrite Hs.
    destruct (Ascii.eqb_spec c "-") as [-> | _]; [by destruct Hc |].
    rewrite <- Hs. rewrite (read_digits_string_of_uint u rest Hrest).
    rewrite (uint_beq_Nil u Hnil), Hnorm, uint_beq_refl.
    cbn [negb]. rewrite (read_fraction_none rest Hrest).
    rewrite (read_exponent_none rest Hrest). cbv zeta.
    rewrite DecimalFacts.app_nil_r, Hof. by rewrite decimal_integer.
  - rewrite (NilZero_string_of_uint u Hnil).
    unfold read_number. simpl.
    rewrite (read_digits_string_of_uint u rest Hrest).
    rewrite (uint_beq_Nil u Hnil), Hnorm, uint_beq_refl.
    cbn [negb]. rewrite (read_fraction_none rest Hrest).
    rewrite (read_exponent_none rest Hrest). cbv zeta.
    rewrite DecimalFacts.app_nil_r.
    change (- Z.of_uint u) with (Z.of_int (Neg u)).
    rewrite Hof. by rewrite decimal_integer.
Qed.

Lemma Number_toString_head n rest :
  ∃ c r, Number_toString n +:+ rest = String c r
         ∧ (c = "-"%char ∨ is_Some (digit c)).
Proof.
  unfold Number_toString.
  destruct (to_int_normal n) as (u & [Hu | Hu] & Hnil & _); rewrite Hu.
  - simpl. rewrite (NilZero_string_of_uint u Hnil).
    destruct (string_of_uint_nonnil u rest Hnil) as (c & r & Hs & Hc).
    exists c, r. auto.
  - simpl. eexists _, _. split; [reflexivity | by left].
Qed.

Lemma parse_value_numeral_head fuel c r :
  c = "-"%char ∨ is_Some (digit c) →
  parse_value (S fuel) (String c r) = res_map VNum (read_number (String c r)).
Proof.
  intros [-> | [d Hd]]; [reflexivity |].
  destruct c as [[] [] [] [] [] [] [] []]; try discriminate Hd;
    reflexivity.
Qed.

Lemma parse_value_number fuel n rest :
  ends_numeral rest →
  parse_value (S fuel) (Number_toString n +:+ rest) = Ok (VInt n) rest.
Proof.
  intros Hrest.
  destruct (Number_toString_head n rest) as (c & r & Hs & Hc).
  rewrite Hs, (parse_value_numeral_head fuel c r Hc), <- Hs.
  by rewrite (read_number_toString n rest Hrest).
Qed.

Lemma parse_members_more fuel key n rest acc :
  simple_key key →
  parse_members (S (S fuel)) (member key n (String "," rest)) acc
  = parse_members (S fuel) rest (<[units key := VInt n]> acc).
Proof.
  intros Hkey. rewrite parse_members_unfold. unfold member.
  cbn [skip_ws is_ws Ascii.eqb Bool.eqb negb]. rewrite Hkey.
  cbn [skip_ws is_ws Ascii.eqb Bool.eqb negb].
  rewrite parse_value_number by (by repeat split).
  reflexivity.
Qed.

Lemma parse_members_last fuel key n rest acc :
  simple_key key →
  parse_members (S (S fuel)) (member key n (String "}" rest)) acc
  = Ok (VObj (<[units key := VInt n]> acc)) rest.
Proof.
  intros Hkey. rewrite parse_members_unfold. unfold member.
  cbn [skip_ws is_ws Ascii.eqb Bool.eqb negb]. rewrite Hkey.
  cbn [skip_ws is_ws Ascii.eqb Bool.eqb negb].
  rewrite parse_value_number by (by repeat split).
  reflexivity.
Qed.

Lemma parse_value_object fuel r :
  (∃ c r', r = String c r' ∧ is_ws c = false ∧ c ≠ "}"%char) →
  parse_value (S fuel) (String "{" r) = parse_members fuel r ∅.
Proof.
  intros (c & r' & -> & Hws & Hc).
  rewrite parse_value_unfold.
  cbn [skip_ws is_ws Ascii.eqb Bool.eqb]. rewrite Hws.
  by destruct (Ascii.eqb_spec c "}").
Qed.

(** [JSON.parse] reads back the record that [JSON.stringify] wrote. *)
Lemma JSON_parse_stringify s :
  JSON_parse (JSON_stringify s) = Parsed (js_of_GameState s).
Proof.
  unfold JSON_parse.
  assert (Hfuel : ∃ f, (2 * String.length (JSON_stringify s) + 1
                        = 10 + f)%nat).
  { exists (2 * String.length (JSON_stringify s) + 1 - 10)%nat.
    assert (5 <= String.length (JSON_stringify s))%nat; [| lia].
    unfold JSON_stringify, member. simpl. lia. }
  destruct Hfuel as [f ->].
  assert (Hparse : parse_value (10 + f) (JSON_stringify s)
                   = Ok (js_of_GameState s) "").
  { unfold JSON_stringify. cbn [Nat.add].
    rewrite parse_value_object
      by (unfold member; eexists _, _; split; [reflexivity | done]).
    do 7 (rewrite parse_members_more by (intros ?; reflexivity)).
    rewrite parse_members_last by (intros ?; reflexivity).
    reflexivity. }
  rewrite Hparse. reflexivity.
Qed.

Example JSON_parse_array :
  JSON_parse "[1, -20, null, true]"
  = Parsed (VArr [VInt 1; VInt (-20); VNull; VBool true]).
Proof. vm_compute. reflexivity. Qed.

Example JSON_parse_leading_zero : JSON_parse "01" = SyntaxError.
Proof. vm_compute. reflexivity. Qed.

Example JSON_parse_fraction :
  JSON_parse "[1.5, -25e-2, 1e2, 10.0]"
  = Parsed (VArr [VNum (3 # 2); VNum (-1 # 4); VInt 100; VInt 10]).
Proof. vm_compute. reflexivity. Qed.

Example JSON_parse_open_array : JSON_parse "[" = SyntaxError.
Proof. vm_compute. reflexivity. Qed.

Example JSON_parse_escape :
  JSON_parse (String "034" ("a\u00e9\n" +:+ String "034" ""))
  = Parsed (VStr [97; 233; 10]%N).
Proof. vm_compute. reflexivity. Qed.

Example JSON_stringify_default :
  JSON_parse (JSON_stringify defaultState)
  = Parsed (js_of_GameState defaultState).
Proof. vm_compute. reflexivity. Qed.

Lemma GameState_of_js_of_GameState s :
  GameState_of_js (js_of_GameState s) = Some s.
Proof. destruct s. vm_compute. reflexivity. Qed.

Lemma loadState_saveState w :
  loadState (localStorage (saveState w)) = Some (js_of_GameState (state w)).
Proof.
  unfold loadState, saveState. cbn [localStorage].
  rewrite lookup_insert_eq.
  change (String.eqb (JSON_stringify (state w)) "") with false.
  cbv iota. by rewrite JSON_parse_stringify.
Qed.


(** C2, as the specification states it, fails in its last part: a
    stored object with a single key is returned as it is, not replaced
    by the default record; it is not even a [GameState] record. *)
Lemma C2_partial_object_is_kept :
  let ls : gmap string string := {[ STORAGE_KEY := partial_record_text ]} in
  loadState ls = Some (VObj {[ units "coins" := VInt 5 ]})
  ∧ loadState ls ≠ Some (js_of_GameState defaultState)
  ∧ (loadState ls ≫= GameState_of_js) = None.
Proof.
  intros ls.
  assert (Hload : loadState ls = Some (VObj {[ units "coins" := VInt 5 ]}))
    by (vm_compute; reflexivity).
  split; [exact Hload |]. rewrite Hload. split; [| reflexivity].
  intros H.
  apply (f_equal (λ o, match o with
                       | Some (VObj m) => m !! units "clickPower"
                       | _ => None
                       end)) in H.
  vm_compute in H. discriminate H.
Qed.

(** C2, amended. Loading after saving reproduces the record (and a
    manager built on the saved store starts from it); loading when the
    slot is missing, empty or not JSON text yields the default record;
    and whatever JSON value the stored text denotes is returned as it
    is, without any check of its keys and without merging defaults.
    Every text is one or the other: [JSON.parse] either throws its
    [SyntaxError] or returns a value. *)
Theorem C2_load_after_save_and_fallback :
  (∀ w,
     loadState (localStorage (saveState w))
     = Some (js_of_GameState (state w))
     ∧ GameStateManager_new (localStorage (saveState w))
       = Some {| state := state w; listeners := [];
                 localStorage := localStorage (saveState w); log := [] |})
  ∧ (∀ ls : gmap string string,
       (ls !! STORAGE_KEY = None
        ∨ ls !! STORAGE_KEY = Some ""
        ∨ ∃ saved, ls !! STORAGE_KEY = Some saved
                   ∧ JSON_parse saved = SyntaxError) →
       loadState ls = Some (js_of_GameState defaultState)
       ∧ GameStateManager_new ls
         = Some {| state := defaultState; listeners := [];
                   localStorage := ls; log := [] |})
  ∧ (∀ (ls : gmap string string) saved v,
       ls !! STORAGE_KEY = Some saved → saved ≠ "" →
       JSON_parse saved = Parsed v →
       loadState ls = Some v)
  ∧ (∀ saved,
       JSON_parse saved = SyntaxError ∨ ∃ v, JSON_parse saved = Parsed v).
Proof.
  split; [| split; [| split]].
  - intros w. pose proof (loadState_saveState w) as Hload.
    split; [exact Hload |].
    unfold GameStateManager_new. rewrite Hload. cbn [mbind option_bind].
    by rewrite GameState_of_js_of_GameState.
  - intros ls H.
    assert (Hload : loadState ls = Some (js_of_GameState defaultState)).
    { unfold loadState.
      destruct H as [-> | [-> | (saved & -> & Hparse)]];
        [reflexivity | reflexivity |].
      rewrite Hparse. by destruct (String.eqb saved ""). }
    split; [exact Hload |].
    unfold GameStateManager_new. rewrite Hload. reflexivity.
  - intros ls saved v Hslot Hne Hparse. unfold loadState.
    rewrite Hslot, Hparse.
    destruct (String.eqb_spec saved "") as [-> | _]; [done | reflexivity].
  - intros saved. pose proof (JSON_parse_finishes saved) as Hends.
    destruct (JSON_parse saved) as [v | |]; [right; by exists v | by left |].
    done.
Qed.

Lemma C2_load_after_save_and_fallback_witness :
  loadState (localStorage (saveState fresh_world))
  = Some (js_of_GameState defaultState)
  ∧ loadState ∅ = Some (js_of_GameState defaultState)
  ∧ loadState {[ STORAGE_KEY := "{coins:5" ]}
    = Some (js_of_GameState defaultState)
  ∧ loadState {[ STORAGE_KEY := "[" ]}
    = Some (js_of_GameState defaultState)
  ∧ loadState {[ STORAGE_KEY := "[1, 2]" ]} = Some (VArr [VInt 1; VInt 2])
  ∧ loadState {[ STORAGE_KEY := fraction_record_text ]}
    = Some (VObj {[ units "coins" := VNum (3 # 2) ]}).
Proof.
  destruct C2_load_after_save_and_fallback
    as (Hsave & Hdefault & Hkeep & _).
  split; [apply (Hsave fresh_world) |].
  split; [apply (Hdefault ∅); left; reflexivity |].
  split; [| split; [| split]].
  - apply (Hdefault {[ STORAGE_KEY := "{coins:5" ]}).
    right; right. eexists. split; reflexivity.
  - apply (Hdefault {[ STORAGE_KEY := "[" ]}).
    right; right. eexists. split; reflexivity.
  - apply (Hkeep {[ STORAGE_KEY := "[1, 2]" ]} "[1, 2]");
      [reflexivity | discriminate | reflexivity].
  - apply (Hkeep {[ STORAGE_KEY := fraction_record_text ]}
             fraction_record_text);
      [reflexivity | discriminate | reflexivity].
Defined.

End JsonFacts.

(* ================================================================= *)
(** ** TrailsService and GamePaymentService                            *)
(* ================================================================= *)

Section TrailsFacts.
Import Trails.
Context {G : Type}.

Lemma request_run {T} svc endpoint body (r : reply T) (w : World G) :
  request svc endpoint body r w
  = Some (request_result r, answered svc endpoint body r w).
Proof.
  unfold request, request_result, answered, bind, Date_now, emit, elapse.
  cbn [now game log].
  destruct (outcome r) as [e | [e | x] | status [v |]];
    cbv [default from_option Datatypes.id]; try reflexivity;
    match goal with
    | |- context [read_message ?v] => destruct (read_message v)
    end; reflexivity.
Qed.

(* --------------------------------------------------------------- *)
(** *** Errors                                                      *)

(** C9, as the specification states it, fails in its first part: a 500
    response whose body is not JSON surfaces as "Unknown error", which
    is neither a message of the provider nor a message that carries the
    status. *)
Lemma C9_unparsable_error_body :
  ¬ (∀ svc endpoint body latency status b (w : World unit),
       ∃ w',
         request (T := unit) svc endpoint body
           {| latency := latency; outcome := HttpError status b |} w
         = Some (inl (JsError "Error" (specified_message status b)), w')).
Proof.
  intros H.
  destruct (H (TrailsService_new "key" None) "/v1/quoteIntent"
              (ReceiptBody "x") 0 500 None
              {| now := 0; game := tt; log := [] |}) as [w' Hw'].
  vm_compute in Hw'. discriminate Hw'.
Qed.

Lemma purchaseItem_not_connected fuel svc env (item : ShopItem G)
    chain onStatusUpdate w :
  address svc = None ∨ address svc = Some "" ∨ signer svc = None →
  purchaseItem fuel svc env item chain onStatusUpdate w
  = Some (inl not_connected_error, w).
Proof.
  unfold purchaseItem. intros [-> | [-> | ->]]; try reflexivity.
  - by destruct (signer svc).
  - by destruct (address svc).
Qed.

Lemma purchaseItem_connected fuel svc env (item : ShopItem G)
    chain onStatusUpdate owner sg :
  address svc = Some owner → owner ≠ "" → signer svc = Some sg →
  purchaseItem fuel svc env item chain onStatusUpdate
  = try_catch
      (purchaseItem_try fuel svc env item chain onStatusUpdate owner)
      purchaseItem_catch.
Proof.
  intros Ha Hne Hs. unfold purchaseItem. rewrite Ha, Hs.
  by destruct (String.eqb_spec owner "").
Qed.

Lemma purchaseItem_catch_run (e : thrown) (w : World G) :
  purchaseItem_catch e w
  = Some (inl (if indicates_rejection e then rejected_error else e), w).
Proof.
  destruct e as [cls message | v]; simpl; [| reflexivity].
  by destruct (includes "rejected" message).
Qed.

(** C9, amended. A response with a status outside 2xx makes [request]
    throw an [Error] whose message is: the [message] of the JSON body,
    when the body is an object whose [message] is a non-empty string;
    "Unknown error" when the body is not JSON; and [API error: <status>]
    when the body is JSON, other than [null], without a truthy
    [message]. In [purchaseItem], an [Error] thrown in the [try] block
    whose message includes "rejected" is replaced by the error
    "Transaction rejected by user"; any other thrown value, and the
    "Wallet not connected" error of a service that is not connected,
    reach the caller unchanged. *)
Theorem C9_remote_errors_and_rejection :
  (∀ T svc endpoint body latency status b (w : World G),
     let r : reply T :=
       {| latency := latency; outcome := HttpError status b |} in
     let throws (message : string) :=
       request svc endpoint body r w
       = Some (inl (JsError "Error" message), answered svc endpoint body r w) in
     (b = None → throws "Unknown error")
     ∧ (∀ m s, b = Some (JObj m) → m !! "message" = Some (JStr s) →
               s ≠ "" → throws s)
     ∧ (∀ v, b = Some v → v ≠ JNull → provider_message v = None →
             throws (status_message status)))
  ∧ (∀ fuel svc env (item : ShopItem G) chain onStatusUpdate w,
       (∀ owner sg e w',
          address svc = Some owner → owner ≠ "" → signer svc = Some sg →
          purchaseItem_try fuel svc env item chain onStatusUpdate owner w
          = Some (inl e, w') →
          purchaseItem fuel svc env item chain onStatusUpdate w
          = Some (inl (if indicates_rejection e then rejected_error else e),
                  w'))
       ∧ (address svc = None ∨ address svc = Some "" ∨ signer svc = None →
          purchaseItem fuel svc env item chain onStatusUpdate w
          = Some (inl not_connected_error, w))).
Proof.
  split.
  - intros T svc endpoint body latency status b w r throws. subst throws.
    cbv beta. rewrite request_run. unfold request_result, r. cbn [outcome].
    split; [| split].
    + intros ->. reflexivity.
    + intros m s -> Hm Hs. cbv [default from_option Datatypes.id].
      unfold read_message, error_of. rewrite Hm. cbn [truthy toString].
      by destruct (String.eqb_spec s "").
    + intros v -> Hnull Hnone. cbv [default from_option Datatypes.id].
      destruct v as [| | | | | m]; try reflexivity; [done |].
      unfold read_message, error_of. unfold provider_message in Hnone.
      destruct (m !! "message") as [v |]; [| reflexivity].
      by destruct (truthy v).
  - intros fuel svc env item chain onStatusUpdate w. split.
    + intros owner sg e w' Ha Hne Hs Htry.
      rewrite (purchaseItem_connected _ _ _ _ _ _ owner sg Ha Hne Hs).
      unfold try_catch. rewrite Htry. apply purchaseItem_catch_run.
    + apply purchaseItem_not_connected.
Qed.

(* --------------------------------------------------------------- *)
(** *** The polling loop                                            *)

Lemma getIntentReceipt_run svc r id (w : World G) :
  getIntentReceipt svc r id w
  = Some match request_result r with
         | inl e =>
             (inl e, answered svc "/v1/getIntentReceipt" (ReceiptBody id) r w)
         | inr receipt =>
             (inr receipt,
              logged (Received receipt)
                (answered svc "/v1/getIntentReceipt" (ReceiptBody id) r w))
         end.
Proof.
  unfold getIntentReceipt, bind. rewrite request_run.
  by destruct (request_result r).
Qed.

Lemma sleep_run ms (w : World G) :
  sleep ms w
  = Some (inr tt, {| now := now w + Z.max 0 ms; game := game w;
                     log := log w ++ [Slept ms] |}).
Proof. reflexivity. Qed.

Lemma poll_loop_unfold fuel svc replies k id start timeout interval
    (w : World G) :
  poll_loop (S fuel) svc replies k id start timeout interval w
  = if now w - start <? timeout then
      let w1 := answered svc "/v1/getIntentReceipt" (ReceiptBody id)
                  (replies k) w in
      match request_result (replies k) with
      | inl e => Some (inl e, w1)
      | inr receipt =>
          if is_terminal receipt
          then Some (inr receipt, logged (Received receipt) w1)
          else
            poll_loop fuel svc replies (S k) id start timeout interval
              {| now := now w1 + Z.max 0 interval; game := game w1;
                 log := (log w1 ++ [Received receipt]) ++ [Slept interval] |}
      end
    else Some (inl timeout_error, w).
Proof.
  cbn [poll_loop]. unfold bind at 1. unfold Date_now at 1.
  destruct (now w - start <? timeout); [| reflexivity].
  unfold bind at 1. rewrite getIntentReceipt_run.
  destruct (request_result (replies k)) as [e | receipt]; [reflexivity |].
  destruct (is_terminal receipt); reflexivity.
Qed.

Lemma poll_time_step replies interval j :
  ∀ k t,
    poll_time replies interval k t (S j)
    = poll_time replies interval k t j
      + latency (replies (k + j)%nat) + interval.
Proof.
  induction j as [| j IH]; intros k t.
  - simpl. by rewrite Nat.add_0_r.
  - change (poll_time replies interval k t (S (S j)))
      with (poll_time replies interval (S k)
              (t + latency (replies k) + interval) (S j)).
    rewrite IH. simpl. by rewrite Nat.add_succ_r.
Qed.

Lemma receipt_of_result r receipt :
  receipt_of r = Some receipt → request_result r = inr receipt.
Proof.
  unfold receipt_of, request_result.
  destruct (outcome r) as [| [|] |]; try discriminate. by intros [= ->].
Qed.

(** With enough fuel the loop ends, whatever the polls are answered. *)
Lemma poll_loop_total svc replies id start timeout interval :
  0 < interval → (∀ k, 0 <= latency (replies k)) →
  ∀ fuel k (w : World G),
    (1 <= fuel)%nat →
    timeout - (now w - start) <= interval * (Z.of_nat fuel - 1) →
    is_Some (poll_loop fuel svc replies k id start timeout interval w).
Proof.
  intros Hint Hlat. induction fuel as [| fuel IH]; intros k w Hfuel Hm;
    [lia |].
  rewrite poll_loop_unfold.
  destruct (now w - start <? timeout) eqn:Ht; [| by eexists].
  apply Z.ltb_lt in Ht. cbv zeta.
  destruct (request_result (replies k)) as [e | receipt]; [by eexists |].
  destruct (is_terminal receipt); [by eexists |].
  specialize (Hlat k).
  apply IH; cbn [now answered]; [nia | nia].
Qed.

(** Whatever the polls are answered, the loop returns a receipt exactly
    when it received a terminal one, which is then the receipt it
    returns; and it leaves the store alone. *)
Lemma poll_loop_received svc replies id start timeout interval :
  ∀ fuel k (w : World G) res w',
    poll_loop fuel svc replies k id start timeout interval w
    = Some (res, w') →
    ∃ evs, log w' = log w ++ evs
           ∧ game w' = game w
           ∧ count_effects evs = 0%nat
           ∧ (∀ r, Received r ∈ evs → is_terminal r = true → res = inr r)
           ∧ (∀ r, res = inr r → is_terminal r = true ∧ Received r ∈ evs).
Proof.
  induction fuel as [| fuel IH]; intros k w res w' Hrun; [discriminate |].
  rewrite poll_loop_unfold in Hrun.
  destruct (now w - start <? timeout).
  2:{ injection Hrun as <- <-. exists []. rewrite app_nil_r.
      split; [reflexivity |]. split; [reflexivity |].
      split; [reflexivity |]. split; [| discriminate].
      intros r Hr. by apply elem_of_nil in Hr. }
  cbv zeta in Hrun.
  destruct (request_result (replies k)) as [e | receipt].
  { injection Hrun as <- <-. eexists [_]. split; [reflexivity |].
    split; [reflexivity |]. split; [reflexivity |]. split; [| discriminate].
    intros r Hr. apply list_elem_of_singleton in Hr. discriminate Hr. }
  destruct (is_terminal receipt) eqn:Hterm.
  { injection Hrun as <- <-. eexists [_; _].
    split; [cbn [log logged answered]; by rewrite <- app_assoc |].
    split; [reflexivity |]. split; [reflexivity |]. split.
    - intros r Hr _. apply elem_of_cons in Hr as [Hr | Hr];
        [discriminate Hr |].
      apply list_elem_of_singleton in Hr. by injection Hr as ->.
    - intros r [= <-]. split; [exact Hterm |].
      apply elem_of_cons. right. apply list_elem_of_here. }
  apply IH in Hrun as (evs & Hlog & Hgame & Hcount & Hrecv & Hret).
  cbn [log game answered] in Hlog, Hgame.
  eexists (_ :: _ :: _ :: evs). split.
  { rewrite Hlog. rewrite <- !app_assoc. reflexivity. }
  split; [exact Hgame |]. split; [exact Hcount |]. split.
  - intros r Hr Hr'.
    apply elem_of_cons in Hr as [Hr | Hr]; [discriminate Hr |].
    apply elem_of_cons in Hr as [Hr | Hr].
    { injection Hr as ->. congruence. }
    apply elem_of_cons in Hr as [Hr | Hr]; [discriminate Hr |].
    by apply Hrecv.
  - intros r Hr. destruct (Hret r Hr) as [Hterm' Hin].
    split; [exact Hterm' |]. by do 3 apply list_elem_of_further.
Qed.


(** C10. With a [timeout] option that is zero or negative,
    [waitIntentReceipt] throws the timeout error at once: the world is
    as before the call (no request was sent), whatever the remote
    service would have answered. *)
Theorem C10_nonpositive_timeout fuel svc replies id options t
    (w : World G) :
  options ≫= timeout = Some t → t <= 0 →
  waitIntentReceipt (S fuel) svc replies id options w
  = Some (inl timeout_error, w).
Proof.
  intros Hopt Ht. unfold waitIntentReceipt. rewrite Hopt. cbn [default].
  unfold bind at 1. unfold Date_now at 1.
  rewrite poll_loop_unfold.
  replace (now w - now w <? Datatypes.id t) with false; [reflexivity |].
  symmetry. apply Z.ltb_ge. unfold Datatypes.id. lia.
Qed.


(* --------------------------------------------------------------- *)
(** *** One purchase                                                *)

Lemma count_effects_app (evs1 evs2 : list event) :
  count_effects (evs1 ++ evs2)
  = (count_effects evs1 + count_effects evs2)%nat.
Proof.
  induction evs1 as [| e evs1 IH]; [reflexivity |].
  destruct e; simpl; by rewrite IH.
Qed.

Lemma quiet_nil : quiet [].
Proof. split; [reflexivity |]. intros r Hr. by apply elem_of_nil in Hr. Qed.

Lemma quiet_singleton e :
  match e with Received _ | EffectApplied _ => False | _ => True end →
  quiet [e].
Proof.
  intros He. split; [by destruct e |].
  intros r Hr. apply list_elem_of_singleton in Hr. by subst e.
Qed.

Lemma quiet_not_received evs1 evs2 r :
  quiet evs1 → Received r ∈ evs1 ++ evs2 → Received r ∈ evs2.
Proof.
  intros [_ Hq] Hr. apply elem_of_app in Hr as [Hr | Hr]; [| exact Hr].
  by destruct (Hq r).
Qed.

Lemma update_quiet onStatusUpdate msg :
  quiet_run (update (G := G) onStatusUpdate msg).
Proof.
  intros w. destruct onStatusUpdate as [k |]; simpl.
  - eexists _, _, [_]. split; [reflexivity |].
    split; [reflexivity |]. split; [reflexivity |]. by apply quiet_singleton.
  - eexists _, _, []. split; [reflexivity |].
    split; [by rewrite app_nil_r |]. split; [reflexivity | apply quiet_nil].
Qed.

Lemma of_result_quiet {A} (r : thrown + A) : quiet_run (of_result (G := G) r).
Proof.
  intros w. destruct r; eexists _, _, []; (split; [reflexivity |]);
    (split; [by rewrite app_nil_r |]);
    (split; [reflexivity | apply quiet_nil]).
Qed.

Lemma request_quiet {T} svc endpoint body (r : reply T) :
  quiet_run (request (G := G) svc endpoint body r).
Proof.
  intros w. rewrite request_run. eexists _, _, [_].
  split; [reflexivity |]. split; [reflexivity |].
  split; [reflexivity |]. by apply quiet_singleton.
Qed.

(** After a quiet step, the rest of the run settles the purchase. *)
Lemma bind_quiet {A} (item : ShopItem G) (m : M G A)
    (k : A → M G IntentReceipt) :
  quiet_run m → (∀ a, settling_run item (k a)) →
  settling_run item (bind m k).
Proof.
  intros Hm Hk w. unfold bind.
  destruct (Hm w) as (res & w1 & evs1 & -> & Hlog1 & Hgame1 & Hq).
  destruct res as [e | a].
  - exists (inl e), w1, evs1. split; [reflexivity |].
    split; [exact Hlog1 |]. intros r Hr. by destruct (proj2 Hq r).
  - destruct (Hk a w1) as (res & w2 & evs2 & Hrun & Hlog2 & Hsettle).
    exists res, w2, (evs1 ++ evs2). split; [exact Hrun |].
    split; [by rewrite Hlog2, Hlog1, app_assoc |].
    intros r Hr Hterm.
    apply (quiet_not_received _ _ _ Hq) in Hr.
    destruct (Hsettle r Hr Hterm) as (Hres & Hdone & Hnot).
    rewrite count_effects_app, (proj1 Hq), <- Hgame1.
    split; [exact Hres |]. split; [| exact Hnot].
    intros Hcompleted. destruct (Hdone Hcompleted) as (Hone & Hlast & Hgame).
    rewrite last_app, Hlast. auto.
Qed.

Lemma try_catch_settling (item : ShopItem G) (body : M G IntentReceipt) :
  settling_run item body →
  settling_run item (try_catch body purchaseItem_catch).
Proof.
  intros Hbody w. unfold try_catch.
  destruct (Hbody w) as (res & w' & evs & -> & Hlog & Hsettle).
  destruct res as [e | receipt].
  - rewrite purchaseItem_catch_run. eexists _, w', evs.
    split; [reflexivity |]. split; [exact Hlog |].
    intros r Hr Hterm. by destruct (Hsettle r Hr Hterm) as ([=] & _).
  - by exists (inr receipt), w', evs.
Qed.

(** The last step: wait for the receipt, apply the effect if the
    receipt says [completed], return the receipt. *)
Lemma wait_and_apply_settling fuel svc replies id (item : ShopItem G) :
  (∀ k, 0 <= latency (replies k)) → (151 <= fuel)%nat →
  settling_run item
    (bind (waitIntentReceipt fuel svc replies id None)
       (λ receipt,
          bind match status receipt with
               | completed => apply_effect item
               | _ => ret tt
               end
            (λ _, ret receipt))).
Proof.
  intros Hlat Hfuel w. unfold bind at 1.
  change (waitIntentReceipt fuel svc replies id None w)
    with (poll_loop fuel svc replies 0 id (now w) 300000 2000 w).
  destruct (poll_loop_total svc replies id (now w) 300000 2000
              ltac:(lia) Hlat fuel 0%nat w ltac:(lia) ltac:(lia))
    as [[res1 w1] Hrun].
  rewrite Hrun.
  destruct (poll_loop_received _ _ _ _ _ _ _ _ _ _ _ Hrun)
    as (evs1 & Hlog1 & Hgame1 & Hcount1 & Hrecv & Hret).
  destruct res1 as [e | r0].
  { exists (inl e), w1, evs1. split; [reflexivity |].
    split; [exact Hlog1 |].
    intros r Hr Hterm. by specialize (Hrecv r Hr Hterm). }
  destruct (Hret r0 eq_refl) as [Hterm0 Hin0].
  destruct (status r0) eqn:Hstatus;
    try (exists (inr r0), w1, evs1; split; [reflexivity |];
         split; [exact Hlog1 |];
         intros r Hr Hterm;
         specialize (Hrecv r Hr Hterm); injection Hrecv as <-;
         split; [reflexivity |]; split; [congruence | done]).
  eexists (inr r0), _, (evs1 ++ [EffectApplied (Trails.id item)]).
  split; [reflexivity |].
  split; [cbn [log]; by rewrite Hlog1, app_assoc |].
  intros r Hr Hterm.
  assert (Hr1 : Received r ∈ evs1).
  { apply elem_of_app in Hr as [Hr | Hr]; [exact Hr |].
    apply list_elem_of_singleton in Hr. discriminate Hr. }
  specialize (Hrecv r Hr1 Hterm). injection Hrecv as <-.
  split; [reflexivity |]. split; [| congruence].
  intros _. rewrite count_effects_app, Hcount1, last_snoc. cbn [now game].
  by rewrite Hgame1.
Qed.

(** C1. Whatever the remote service answers (after non-negative
    delays), [purchaseItem] with enough fuel ends; and if on the way a
    terminal receipt was received, that receipt is returned (nothing is
    thrown), with [item.effect] invoked exactly once, as the last thing
    done before returning, when its status is [completed], and not at
    all when its status is [failed] or [refunded]. *)
Theorem C1_purchase_terminal_receipt fuel svc env (item : ShopItem G)
    fromChainId onStatusUpdate (w : World G) :
  (∀ k, 0 <= latency (receipt_reply env k)) → (151 <= fuel)%nat →
  ∃ res w' evs,
    purchaseItem fuel svc env item fromChainId onStatusUpdate w
    = Some (res, w')
    ∧ log w' = log w ++ evs
    ∧ ∀ r, Received r ∈ evs → is_terminal r = true →
        res = inr r
        ∧ (status r = completed →
           count_effects evs = 1%nat
           ∧ last evs = Some (EffectApplied (id item))
           ∧ game w' = effect item (now w') (game w))
        ∧ (status r ≠ completed →
           count_effects evs = 0%nat ∧ game w' = game w).
Proof.
  intros Hlat Hfuel.
  assert (Hquiet : ∀ res : thrown + IntentReceipt, ∃ res' w' evs,
            Some (res, w) = Some (res', w') ∧ log w' = log w ++ evs
            ∧ ∀ r, Received r ∈ evs → is_terminal r = true →
                res' = inr r
                ∧ (status r = completed →
                   count_effects evs = 1%nat
                   ∧ last evs = Some (EffectApplied (id item))
                   ∧ game w' = effect item (now w') (game w))
                ∧ (status r ≠ completed →
                   count_effects evs = 0%nat ∧ game w' = game w)).
  { intros res. exists res, w, []. split; [reflexivity |].
    split; [by rewrite app_nil_r |]. intros r Hr.
    by apply elem_of_nil in Hr. }
  unfold purchaseItem.
  destruct (address svc) as [owner |]; [| apply Hquiet].
  destruct (signer svc) as [sg |]; [| apply Hquiet].
  destruct (String.eqb owner ""); [apply Hquiet |].
  apply try_catch_settling. unfold purchaseItem_try.
  apply bind_quiet; [apply update_quiet | intros _].
  apply bind_quiet; [apply of_result_quiet | intros amount].
  apply bind_quiet; [apply request_quiet | intros quote].
  apply bind_quiet; [apply update_quiet | intros _].
  apply bind_quiet; [apply request_quiet | intros committed].
  apply bind_quiet; [apply update_quiet | intros _].
  apply bind_quiet; [apply request_quiet | intros _].
  apply bind_quiet; [apply update_quiet | intros _].
  by apply wait_and_apply_settling.
Qed.

End TrailsFacts.

Section TrailsFactsWitnesses.
Import Trails.

Example click_boost_is_shipped : head Main.SHOP_ITEMS = Some click_boost.
Proof. reflexivity. Qed.

Lemma C9_remote_errors_and_rejection_witness :
  (∃ w', request (T := Quote) (trails sample_service) "/v1/quoteIntent"
           (ReceiptBody "intent-1")
           {| latency := 10; outcome := HttpError 502 None |} sample_world
         = Some (inl (JsError "Error" "Unknown error"), w'))
  ∧ (∃ w', purchaseItem 200 sample_service
             (refusing_env 400 "User rejected the request")
             click_boost 8453 (Some 0%nat) sample_world
           = Some (inl rejected_error, w'))
  ∧ (∃ w', purchaseItem 200 sample_service
             (refusing_env 503 "Service unavailable")
             click_boost 8453 (Some 0%nat) sample_world
           = Some (inl (JsError "Error" "Service unavailable"), w')).
Proof.
  destruct (@C9_remote_errors_and_rejection Game.World)
    as [Hrequest Hpurchase].
  split; [| split].
  - eexists.
    apply (proj1 (Hrequest Quote (trails sample_service) "/v1/quoteIntent"
                    (ReceiptBody "intent-1") 10 502 None sample_world)).
    reflexivity.
  - destruct (Hpurchase 200%nat sample_service
                (refusing_env 400 "User rejected the request")
                click_boost 8453 (Some 0%nat) sample_world) as [H _].
    eexists.
    refine (eq_trans
              (H "0xA11CE" BrowserSigner
                 (JsError "Error" "User rejected the request")
                 _ eq_refl _ eq_refl _) _);
      [discriminate | vm_compute; reflexivity | reflexivity].
  - destruct (Hpurchase 200%nat sample_service
                (refusing_env 503 "Service unavailable")
                click_boost 8453 (Some 0%nat) sample_world) as [H _].
    eexists.
    refine (eq_trans
              (H "0xA11CE" BrowserSigner (JsError "Error" "Service unavailable")
                 _ eq_refl _ eq_refl _) _);
      [discriminate | vm_compute; reflexivity | reflexivity].
Defined.

Lemma sample_polls_latency last k : 0 <= latency (sample_polls last k).
Proof. simpl. lia. Qed.


Lemma C10_nonpositive_timeout_witness :
  waitIntentReceipt 1 (trails sample_service) (sample_polls completed)
    "intent-1" (Some {| timeout := Some 0; pollInterval := None |})
    sample_world
  = Some (inl timeout_error, sample_world).
Proof.
  apply (C10_nonpositive_timeout 0 (trails sample_service)
           (sample_polls completed) "intent-1"
           (Some {| timeout := Some 0; pollInterval := None |}) 0
           sample_world); [reflexivity | lia].
Defined.


Lemma C1_purchase_terminal_receipt_witness :
  (∃ w', purchaseItem 151 sample_service (sample_env completed)
           click_boost 8453 (Some 0%nat) sample_world
         = Some (inr (sample_receipt completed), w')
         ∧ count_effects (log w') = 1%nat
         ∧ game w' = Game.addClickPower 10 fresh_world)
  ∧ (∃ w', purchaseItem 151 sample_service (sample_env failed)
             click_boost 8453 (Some 0%nat) sample_world
           = Some (inr (sample_receipt failed), w')
           ∧ count_effects (log w') = 0%nat
           ∧ game w' = fresh_world).
Proof.
  split.
  - destruct (C1_purchase_terminal_receipt 151 sample_service
                (sample_env completed) click_boost 8453 (Some 0%nat)
                sample_world)
      as (res & w' & evs & Hrun & Hlog & Hsettle);
      [apply sample_polls_latency | lia |].
    exists w'. cbn [log sample_world app] in Hlog. subst evs.
    destruct (Hsettle (sample_receipt completed))
      as (-> & Hdone & _); [| reflexivity |].
    + vm_compute in Hrun. injection Hrun as _ <-.
      apply list_elem_of_In. vm_compute. tauto.
    + destruct (Hdone eq_refl) as (Hcount & _ & Hgame).
      split; [exact Hrun |]. split; [exact Hcount | exact Hgame].
  - destruct (C1_purchase_terminal_receipt 151 sample_service
                (sample_env failed) click_boost 8453 (Some 0%nat)
                sample_world)
      as (res & w' & evs & Hrun & Hlog & Hsettle);
      [apply sample_polls_latency | lia |].
    exists w'. cbn [log sample_world app] in Hlog. subst evs.
    destruct (Hsettle (sample_receipt failed))
      as (-> & _ & Hnot); [| reflexivity |].
    + vm_compute in Hrun. injection Hrun as _ <-.
      apply list_elem_of_In. vm_compute. tauto.
    + destruct (Hnot ltac:(discriminate)) as [Hcount Hgame].
      split; [exact Hrun |]. split; [exact Hcount | exact Hgame].
Defined.

End TrailsFactsWitnesses.

(* ================================================================= *)
(** ** GameStateManager: listeners, storage, sequences of calls        *)
(* ================================================================= *)

Section MoreGameFacts.
Import Game.

Lemma new_events_app w w' evs :
  log w' = log w ++ evs → new_events w w' = evs.
Proof. unfold new_events. intros ->. by rewrite drop_app_length. Qed.

Lemma run_op_listeners now o w :
  listeners (snd (run_op now o w)) = listeners w.
Proof.
  destruct (notifies now o w) eqn:Hn.
  - destruct (run_op_notifying now o w Hn) as [s' ->]. reflexivity.
  - by rewrite run_op_silent.
Qed.

Lemma run_op_new_events now o w :
  new_events w (snd (run_op now o w))
  = if notifies now o w
    then map (λ l, Notified l (state (snd (run_op now o w)))
                     (localStorage w !! STORAGE_KEY)) (listeners w)
         ++ [Stored STORAGE_KEY (JSON_stringify (state (snd (run_op now o w))))]
    else [].
Proof.
  destruct (notifies now o w) eqn:Hn.
  - destruct (run_op_notifying now o w Hn) as [s' Hs']. rewrite Hs'.
    apply new_events_app. by rewrite notify_log.
  - rewrite run_op_silent by done. apply new_events_app. by rewrite app_nil_r.
Qed.

Lemma run_op_log_extends now o w :
  ∃ evs, log (snd (run_op now o w)) = log w ++ evs.
Proof.
  destruct (notifies now o w) eqn:Hn.
  - destruct (run_op_notifying now o w Hn) as [s' ->]. rewrite notify_log.
    eauto.
  - rewrite run_op_silent by done. exists []. by rewrite app_nil_r.
Qed.

Lemma run_ops_listeners calls :
  ∀ w, listeners (snd (run_ops calls w)) = listeners w.
Proof.
  induction calls as [| [now o] calls IH]; intros w; [reflexivity |].
  simpl. pose proof (run_op_listeners now o w) as Hl.
  destruct (run_op now o w) as [r w1]. specialize (IH w1).
  destruct (run_ops calls w1) as [rs w2]. simpl in *. congruence.
Qed.

Lemma run_ops_log_extends calls :
  ∀ w, ∃ evs, log (snd (run_ops calls w)) = log w ++ evs.
Proof.
  induction calls as [| [now o] calls IH]; intros w.
  - exists []. by rewrite app_nil_r.
  - simpl. destruct (run_op_log_extends now o w) as [evs1 H1].
    destruct (run_op now o w) as [r w1]. destruct (IH w1) as [evs2 H2].
    destruct (run_ops calls w1) as [rs w2]. simpl in *.
    exists (evs1 ++ evs2). by rewrite H2, H1, app_assoc.
Qed.

Lemma notified_count_app l evs1 evs2 :
  notified_count l (evs1 ++ evs2)
  = (notified_count l evs1 + notified_count l evs2)%nat.
Proof.
  induction evs1 as [| e evs1 IH]; [reflexivity |].
  destruct e as [l' snapshot slot | key value]; simpl; [| exact IH].
  destruct (bool_decide (l' = l)); simpl; by rewrite IH.
Qed.

Lemma notified_count_map l snapshot slot (ls : list listener) :
  notified_count l (map (λ l', Notified l' snapshot slot) ls)
  = length (filter (λ l', l' = l) ls).
Proof.
  induction ls as [| l' ls IH]; [reflexivity |]. simpl.
  rewrite filter_cons. destruct (decide (l' = l)) as [-> | Hne].
  - rewrite bool_decide_eq_true_2 by done. simpl. by rewrite IH.
  - rewrite bool_decide_eq_false_2 by done. exact IH.
Qed.

Lemma NoDup_filter_eq_length (l : listener) (ls : list listener) :
  NoDup ls →
  length (filter (λ l', l' = l) ls) = if bool_decide (l ∈ ls) then 1%nat else 0%nat.
Proof.
  induction 1 as [| l' ls Hnotin Hnd IH]; [reflexivity |].
  rewrite filter_cons. destruct (decide (l' = l)) as [-> | Hne].
  - simpl. rewrite IH. rewrite (bool_decide_eq_false_2 (l ∈ ls)) by done.
    rewrite bool_decide_eq_true_2; [reflexivity | apply list_elem_of_here].
  - rewrite IH. destruct (decide (l ∈ ls)) as [Hin | Hout].
    + rewrite !bool_decide_eq_true_2; [done | by apply list_elem_of_further | done].
    + rewrite !bool_decide_eq_false_2; [done | | done].
      intros Hin. apply elem_of_cons in Hin as [-> | Hin]; done.
Qed.

Lemma subscribe_NoDup l w : NoDup (listeners w) → NoDup (listeners (subscribe l w)).
Proof.
  intros Hnd. unfold subscribe. cbn [listeners].
  destruct (decide (l ∈ listeners w)) as [Hin | Hout].
  - by rewrite bool_decide_eq_true_2.
  - rewrite bool_decide_eq_false_2 by done.
    apply NoDup_app. split; [exact Hnd |]. split.
    + intros x Hx Hx'. apply list_elem_of_singleton in Hx'. by subst x.
    + apply NoDup_singleton.
Qed.

Lemma subscribe_elem l w : l ∈ listeners (subscribe l w).
Proof.
  unfold subscribe. cbn [listeners].
  destruct (decide (l ∈ listeners w)) as [Hin | Hout].
  - by rewrite bool_decide_eq_true_2.
  - rewrite bool_decide_eq_false_2 by done.
    apply elem_of_app. right. apply list_elem_of_here.
Qed.

(** X1. The listeners are a set: subscribing a callback that is already
    subscribed changes nothing, the listeners of a new manager stay
    without repetition under every call, and then a notifying call
    invokes a subscribed callback exactly once and no other callback. *)
Theorem subscribe_once (w : World) (l : listener) :
  NoDup (listeners w) →
  subscribe l (subscribe l w) = subscribe l w
  ∧ NoDup (listeners (subscribe l w))
  ∧ NoDup (listeners (unsubscribe l w))
  ∧ (∀ now o, NoDup (listeners (snd (run_op now o w))))
  ∧ (∀ now o l',
       notified_count l' (new_events w (snd (run_op now o w)))
       = if notifies now o w && bool_decide (l' ∈ listeners w)
         then 1%nat else 0%nat).
Proof.
  intros Hnd. split; [| split; [| split; [| split]]].
  - unfold subscribe at 1. cbn [state localStorage log].
    rewrite (bool_decide_eq_true_2 _ (subscribe_elem l w)).
    by destruct (subscribe l w).
  - by apply subscribe_NoDup.
  - unfold unsubscribe. cbn [listeners]. by apply NoDup_filter.
  - intros now o. by rewrite run_op_listeners.
  - intros now o l'. rewrite run_op_new_events.
    destruct (notifies now o w); [| reflexivity]. cbn [andb].
    rewrite notified_count_app, notified_count_map. cbn [notified_count].
    rewrite Nat.add_0_r. by apply NoDup_filter_eq_length.
Qed.

Lemma subscribe_once_witness :
  notified_count 7%nat
    (new_events (subscribe 7%nat (subscribe 7%nat fresh_world))
       (snd (run_op 0 Click (subscribe 7%nat (subscribe 7%nat fresh_world)))))
  = 1%nat.
Proof.
  destruct (subscribe_once fresh_world 7%nat) as (Hsame & Hnd & _);
    [unfold fresh_world; cbn [listeners]; apply NoDup_singleton |].
  rewrite Hsame.
  destruct (subscribe_once (subscribe 7%nat fresh_world) 7%nat Hnd)
    as (_ & _ & _ & _ & Hcount).
  rewrite (Hcount 0 Click 7%nat). reflexivity.
Defined.





(* --------------------------------------------------------------- *)
(** *** What is stored                                              *)

Lemma loadState_in_sync w :
  in_sync w → loadState (localStorage w) = Some (js_of_GameState (state w)).
Proof.
  intros Hsync. unfold loadState. rewrite Hsync.
  change (String.eqb (JSON_stringify (state w)) "") with false.
  cbv iota. by rewrite JSON_parse_stringify.
Qed.

Lemma run_op_in_sync now o w : in_sync w → in_sync (snd (run_op now o w)).
Proof.
  intros Hsync. destruct (notifies now o w) eqn:Hn.
  - destruct (run_op_notifying now o w Hn) as [s' ->].
    unfold in_sync. rewrite notify_localStorage, notify_state.
    apply lookup_insert_eq.
  - by rewrite run_op_silent.
Qed.

Lemma run_op_other_keys now o w key :
  key ≠ STORAGE_KEY →
  localStorage (snd (run_op now o w)) !! key = localStorage w !! key.
Proof.
  intros Hkey. destruct (notifies now o w) eqn:Hn.
  - destruct (run_op_notifying now o w Hn) as [s' ->].
    rewrite notify_localStorage. by rewrite lookup_insert_ne.
  - by rewrite run_op_silent.
Qed.

(** X3. Every notifying call leaves the slot holding the serialization
    of the record as it then is, and from then on no sequence of calls
    breaks that; a manager built on such a store starts from that very
    record, with no listener; and no call touches any other key of the
    store. *)
Theorem storage_follows_state :
  (∀ now o w, notifies now o w = true → in_sync (snd (run_op now o w)))
  ∧ (∀ calls w, in_sync w → in_sync (snd (run_ops calls w)))
  ∧ (∀ w, in_sync w →
       GameStateManager_new (localStorage w)
       = Some {| state := state w; listeners := [];
                 localStorage := localStorage w; log := [] |})
  ∧ (∀ calls w key, key ≠ STORAGE_KEY →
       localStorage (snd (run_ops calls w)) !! key = localStorage w !! key).
Proof.
  split; [| split; [| split]].
  - intros now o w Hn. destruct (run_op_notifying now o w Hn) as [s' ->].
    unfold in_sync. rewrite notify_localStorage, notify_state.
    apply lookup_insert_eq.
  - induction calls as [| [now o] calls IH]; intros w Hsync; [exact Hsync |].
    simpl. pose proof (run_op_in_sync now o w Hsync) as H1.
    destruct (run_op now o w) as [r w1]. specialize (IH w1 H1).
    by destruct (run_ops calls w1).
  - intros w Hsync. unfold GameStateManager_new.
    rewrite (loadState_in_sync w Hsync). cbn [mbind option_bind].
    by rewrite GameState_of_js_of_GameState.
  - induction calls as [| [now o] calls IH]; intros w key Hkey; [reflexivity |].
    simpl. pose proof (run_op_other_keys now o w key Hkey) as H1.
    destruct (run_op now o w) as [r w1]. specialize (IH w1 key Hkey).
    destruct (run_ops calls w1) as [rs w2]. cbn [snd] in *. congruence.
Qed.

Lemma storage_follows_state_witness :
  let w := snd (run_ops [(0, Click); (5, SetMultiplier 2 1000); (9, Click)]
                  fresh_world) in
  GameStateManager_new (localStorage w)
  = Some {| state := state w; listeners := [];
            localStorage := localStorage w; log := [] |}.
Proof.
  intros w.
  destruct storage_follows_state as (Hfirst & Hkeep & Hnew & _).
  apply Hnew.
  apply (Hkeep [(5, SetMultiplier 2 1000); (9, Click)]
           (snd (run_op 0 Click fresh_world))).
  apply Hfirst. reflexivity.
Defined.

(* --------------------------------------------------------------- *)
(** *** What the counters count                                     *)

Lemma count_calls_cons p now o calls :
  count_calls p ((now, o) :: calls)
  = (if p o then 1 else 0) + count_calls p calls.
Proof.
  unfold count_calls. cbn [List.filter snd]. destruct (p o); cbn [length]; lia.
Qed.

Lemma count_calls_nonneg p calls : 0 <= count_calls p calls.
Proof. unfold count_calls. lia. Qed.

Lemma run_op_counts now o w :
  is_reset o = false →
  totalClicks (state (snd (run_op now o w)))
  = totalClicks (state w) + (if is_click o then 1 else 0)
  ∧ purchaseCount (state (snd (run_op now o w)))
    = purchaseCount (state w) + (if is_purchase o then 1 else 0).
Proof.
  destruct o; simpl; try discriminate; intros _; try lia.
  - unfold autoGenerate.
    destruct (autoPerSecond (state w) <=? 0); simpl; lia.
  - unfold checkMultiplierExpiry.
    destruct ((1 <? multiplier (state w))
              && (multiplierEndTime (state w) <? now)); simpl; lia.
Qed.

(** X4. Over a sequence of calls without [resetState], [totalClicks]
    grows by the number of [click()] calls and [purchaseCount] by the
    number of [addClickPower], [addAutoPerSecond] and [setMultiplier]
    calls, whatever else is called in between. *)
Theorem counters_count_calls (calls : list (Z * Op)) (w : World) :
  count_calls is_reset calls = 0 →
  totalClicks (state (snd (run_ops calls w)))
  = totalClicks (state w) + count_calls is_click calls
  ∧ purchaseCount (state (snd (run_ops calls w)))
    = purchaseCount (state w) + count_calls is_purchase calls.
Proof.
  revert w. induction calls as [| [now o] calls IH]; intros w Hreset.
  - unfold count_calls. simpl. lia.
  - rewrite count_calls_cons in Hreset.
    pose proof (count_calls_nonneg is_reset calls) as Hnn.
    destruct (is_reset o) eqn:Ho; [lia |].
    destruct (run_op_counts now o w Ho) as [Hc Hp].
    rewrite !count_calls_cons. simpl.
    destruct (run_op now o w) as [r w1]. cbn [snd] in *.
    destruct (IH w1 ltac:(lia)) as [IHc IHp].
    destruct (run_ops calls w1) as [rs w2]. cbn [snd] in *. lia.
Qed.

Lemma counters_count_calls_witness :
  let calls := [(0, Click); (1, AddClickPower 10); (2, Click);
                (3, AutoGenerate); (4, SetMultiplier 2 1000)] in
  totalClicks (state (snd (run_ops calls fresh_world))) = 2
  ∧ purchaseCount (state (snd (run_ops calls fresh_world))) = 2.
Proof.
  intros calls.
  apply (counters_count_calls calls fresh_world). reflexivity.
Defined.

(* --------------------------------------------------------------- *)
(** *** Arguments are not validated                                 *)

(** X5. The mutators accept any number. Once [addClickPower] has
    taken [clickPower] below zero, the next click returns, and adds to
    [coins], that negative click power times the multiplier: a negative
    amount, which lowers [coins], when the multiplier is positive, and a
    positive amount when the multiplier is negative. A multiplier of at
    most 1 set by [setMultiplier] is never reset by
    [checkMultiplierExpiry], whatever the clock reads. After
    [setMultiplier] with a multiplier of zero or less, a click returns
    the click power times that multiplier: nothing above zero, and no
    rise of [coins], as long as the click power is not negative. *)
Theorem mutators_do_not_validate (w : World) :
  (∀ a, clickPower (state w) + a < 0 →
        let w' := addClickPower a w in
        fst (click w') = (clickPower (state w) + a) * multiplier (state w)
        ∧ coins (state (snd (click w'))) = coins (state w) + fst (click w')
        ∧ (0 < multiplier (state w) →
           fst (click w') < 0
           ∧ coins (state (snd (click w'))) < coins (state w))
        ∧ (multiplier (state w) < 0 → 0 < fst (click w')))
  ∧ (∀ t0 m d t, m <= 1 →
       checkMultiplierExpiry t (setMultiplier t0 m d w)
       = (false, setMultiplier t0 m d w))
  ∧ (∀ t0 m d, m <= 0 →
       let w' := setMultiplier t0 m d w in
       fst (click w') = clickPower (state w) * m
       ∧ coins (state (snd (click w'))) = coins (state w) + fst (click w')
       ∧ (0 <= clickPower (state w) →
          fst (click w') <= 0
          ∧ coins (state (snd (click w'))) <= coins (state w))).
Proof.
  split; [| split].
  - intros a Ha w'. subst w'. simpl.
    split; [reflexivity |]. split; [reflexivity |].
    split; [intros Hm; nia | intros Hm; nia].
  - intros t0 m d t Hm. apply checkMultiplierExpiry_false. simpl. lia.
  - intros t0 m d Hm w'. subst w'. simpl.
    split; [reflexivity |]. split; [reflexivity |]. intros Hp. nia.
Qed.

Lemma mutators_do_not_validate_witness :
  fst (click (addClickPower (-5) fresh_world)) = -4
  ∧ coins (state (snd (click (addClickPower (-5) fresh_world)))) < 0
  ∧ checkMultiplierExpiry 99999 (setMultiplier 0 0 1000 fresh_world)
    = (false, setMultiplier 0 0 1000 fresh_world)
  ∧ fst (click (setMultiplier 0 (-1) 1000 (addClickPower (-5) fresh_world)))
    = 4.
Proof.
  destruct (mutators_do_not_validate fresh_world) as (Hneg & Hnever & _).
  destruct (Hneg (-5)) as (Hearned & _ & Hlower & _); [simpl; lia |].
  split; [exact Hearned |].
  split; [apply Hlower; simpl; lia |].
  split; [apply Hnever; lia |].
  destruct (mutators_do_not_validate (addClickPower (-5) fresh_world))
    as (_ & _ & Hzero).
  destruct (Hzero 0 (-1) 1000) as (Hearned' & _); [lia |].
  exact Hearned'.
Defined.

(* --------------------------------------------------------------- *)
(** *** The shop                                                    *)

(** X6. The effect of every item of the shop leaves [coins],
    [totalClicks] and [totalCoinsEarned] as they are, lowers neither
    [clickPower] nor [autoPerSecond], keeps the listeners and leaves the
    stored record in step with the new one. It raises [purchaseCount]
    by the number of mutators it calls: by 3 for the Mega Pack and by 2
    for the Legendary Crystal, whose effect does not touch the
    multiplier. *)
Theorem shop_effects (item : Trails.ShopItem World) (now : Z) (g : World) :
  item ∈ Main.SHOP_ITEMS →
  let g' := Trails.effect item now g in
  coins (state g') = coins (state g)
  ∧ totalClicks (state g') = totalClicks (state g)
  ∧ totalCoinsEarned (state g') = totalCoinsEarned (state g)
  ∧ clickPower (state g) <= clickPower (state g')
  ∧ autoPerSecond (state g) <= autoPerSecond (state g')
  ∧ purchaseCount (state g) < purchaseCount (state g')
      <= purchaseCount (state g) + 3
  ∧ listeners g' = listeners g
  ∧ in_sync g'
  ∧ (Trails.id item = "mega-pack" →
     purchaseCount (state g') = purchaseCount (state g) + 3)
  ∧ (Trails.id item = "legendary-crystal" →
     purchaseCount (state g') = purchaseCount (state g) + 2
     ∧ multiplier (state g') = multiplier (state g)
     ∧ multiplierEndTime (state g') = multiplierEndTime (state g)).
Proof.
  intros Hin. unfold Main.SHOP_ITEMS in Hin.
  repeat (apply elem_of_cons in Hin as [-> | Hin]);
    [.. | by apply elem_of_nil in Hin];
    cbn [Trails.effect Trails.id];
    (repeat split; try (simpl; lia); try discriminate;
     try (unfold in_sync; simpl; apply lookup_insert_eq)).
Qed.

Lemma shop_effects_witness :
  purchaseCount
    (state (Trails.effect
              (default click_boost (Main.SHOP_ITEMS !! 3%nat)) 0 fresh_world))
  = 3.
Proof.
  destruct (shop_effects (default click_boost (Main.SHOP_ITEMS !! 3%nat))
              0 fresh_world) as (_ & _ & _ & _ & _ & _ & _ & _ & Hmega & _).
  - apply list_elem_of_lookup. by exists 3%nat.
  - rewrite Hmega; reflexivity.
Defined.

End MoreGameFacts.

(* ================================================================= *)
(** ** MainScene: the timer and the clicks                             *)
(* ================================================================= *)

Section SceneFacts.
Import Game Scene.







Lemma handleClick_world w : snd (handleClick w) = snd (click w).
Proof. reflexivity. Qed.

Lemma handleClick_celebration w :
  celebration (fst (handleClick w))
  = (Z.rem (totalClicks (state w) + 1) 100 =? 0).
Proof. reflexivity. Qed.

Lemma hundredth_step tc :
  0 <= tc →
  (tc + 1) / 100 - tc / 100 = if Z.rem (tc + 1) 100 =? 0 then 1 else 0.
Proof.
  intros Htc. rewrite Z.rem_mod_nonneg by lia.
  destruct (Z.eqb_spec ((tc + 1) mod 100) 0) as [H0 | H0];
    Z.div_mod_to_equations; lia.
Qed.

Lemma celebrations_cons fx fxs :
  celebrations (fx :: fxs)
  = (if celebration fx then 1 else 0) + celebrations fxs.
Proof.
  unfold celebrations. cbn [List.filter].
  destruct (celebration fx); cbn [length]; lia.
Qed.

(** X8. A click that earns a non-negative amount emits between 3 and 10
    coins, 10 of them exactly from an amount of 700 on, and shakes the
    camera exactly from an amount of 50 on; and among [n] clicks in a
    row the celebration runs once for every multiple of 100 that
    [totalClicks] reaches. *)
Theorem celebration_every_hundredth_click :
  (∀ w, 0 <= fst (click w) →
        let fx := fst (handleClick w) in
        3 <= particles fx <= 10
        ∧ (particles fx = 10 ↔ 700 <= fst (click w))
        ∧ (is_Some (shake fx) ↔ 50 <= fst (click w)))
  ∧ (∀ n w, 0 <= totalClicks (state w) →
       celebrations (fst (handleClicks n w))
       = (totalClicks (state w) + Z.of_nat n) / 100
         - totalClicks (state w) / 100).
Proof.
  split.
  - intros w Hearned. cbn [handleClick click fst particles shake] in *.
    set (earned := clickPower (state w) * multiplier (state w)) in *.
    split; [| split].
    + Z.div_mod_to_equations. lia.
    + Z.div_mod_to_equations. lia.
    + destruct (Z.leb_spec 50 earned) as [H | H].
      * split; [done | by eexists].
      * split; [intros [q Hq]; discriminate Hq | lia].
  - induction n as [| n IH]; intros w Htc.
    + cbn [handleClicks fst]. unfold celebrations. cbn [List.filter length].
      rewrite Z.add_0_r. lia.
    + cbn [handleClicks].
      pose proof (handleClick_celebration w) as Hc.
      pose proof (handleClick_world w) as Hw.
      destruct (handleClick w) as [fx w1]. cbn [fst snd] in Hc, Hw. subst w1.
      specialize (IH (snd (click w))).
      destruct (handleClicks n (snd (click w))) as [fxs w2].
      cbn [fst snd] in *. rewrite celebrations_cons, Hc, IH.
      * change (totalClicks (state (snd (click w))))
          with (totalClicks (state w) + 1).
        rewrite <- (hundredth_step (totalClicks (state w)) Htc).
        replace (totalClicks (state w) + 1 + Z.of_nat n)
          with (totalClicks (state w) + Z.of_nat (S n)) by lia.
        lia.
      * change (totalClicks (state (snd (click w))))
          with (totalClicks (state w) + 1). lia.
Qed.

Lemma celebration_every_hundredth_click_witness :
  particles (fst (handleClick (addClickPower 799 fresh_world))) = 10
  ∧ celebrations (fst (handleClicks 250 fresh_world)) = 2.
Proof.
  destruct celebration_every_hundredth_click as [Hfx Hcount].
  split.
  - destruct (Hfx (addClickPower 799 fresh_world)) as (_ & Hten & _);
      [simpl; lia |].
    apply Hten. simpl. lia.
  - rewrite (Hcount 250%nat fresh_world); [reflexivity | simpl; lia].
Defined.

End SceneFacts.

(* ================================================================= *)
(** ** formatNumber                                                    *)
(* ================================================================= *)

Section FormatFacts.
Import Format.

Lemma all_from_spec p k :
  ∀ n, all_from k n p = true →
  ∀ m, n <= m < n + Z.of_nat k → p m = true.
Proof.
  induction k as [| k IH]; intros n Hall m Hm; [lia |].
  cbn [all_from] in Hall. apply andb_true_iff in Hall as [Hn Hrest].
  destruct (Z.eq_dec m n) as [-> | Hne]; [exact Hn |].
  apply (IH (n + 1) Hrest). lia.
Qed.

Lemma shows_spec text num : shows text num = true → formatNumber num = Some text.
Proof.
  unfold shows. destruct (formatNumber num) as [s |]; [| discriminate].
  intros H. apply String.eqb_eq in H. by subst s.
Qed.

(** X10. Rounding to one decimal happens after the unit is chosen: the
    fifty integers just below a million are shown as "1000.0K", not as
    "1.0M", and the integers from 999950000 up to a billion as
    "1000.0M". *)
Theorem formatNumber_rounds_past_the_unit (num : Z) :
  (999950 <= num < 1000000 → formatNumber num = Some "1000.0K")
  ∧ (999950000 <= num < 1000000000 → formatNumber num = Some "1000.0M").
Proof.
  split; intros Hnum; apply shows_spec.
  - apply (all_from_spec (shows "1000.0K") (Z.to_nat 50) 999950); [| lia].
    vm_compute. reflexivity.
  - apply (all_from_spec (shows "1000.0M") (Z.to_nat 50000) 999950000);
      [| lia].
    vm_compute. reflexivity.
Qed.

Lemma formatNumber_rounds_past_the_unit_witness :
  formatNumber 999950 = Some "1000.0K"
  ∧ formatNumber 999999999 = Some "1000.0M".
Proof.
  split.
  - apply (proj1 (formatNumber_rounds_past_the_unit 999950)). lia.
  - apply (proj2 (formatNumber_rounds_past_the_unit 999999999)). lia.
Defined.

Example formatNumber_samples :
  formatNumber 1000 = Some "1.0K"
  ∧ formatNumber 1150 = Some "1.1K"
  ∧ formatNumber 1250 = Some "1.3K"
  ∧ formatNumber 999949 = Some "999.9K"
  ∧ formatNumber 2500000000000 = Some "2.5T".
Proof. vm_compute. repeat split. Qed.

End FormatFacts.

(* ================================================================= *)
(** ** TrailsService: more on polling                                   *)
(* ================================================================= *)

Section MoreTrailsFacts.
Import Trails.
Context {G : Type}.

(** [n] polls answered with a non-terminal receipt, each started before
    the timeout, take the loop [n] rounds further. *)
Lemma poll_loop_pending svc replies id start timeout interval :
  0 <= interval →
  ∀ n fuel k (w : World G),
    (∀ j, (j < n)%nat → pending_poll (replies (k + j)%nat)) →
    (∀ j, (j < n)%nat →
          poll_time replies interval k (now w) j - start < timeout) →
    poll_loop (n + fuel) svc replies k id start timeout interval w
    = poll_loop fuel svc replies (k + n) id start timeout interval
        {| now := poll_time replies interval k (now w) n;
           game := game w;
           log := log w ++ polls_log svc replies id interval k (now w) n |}.
Proof.
  intros Hint. induction n as [| n IH]; intros fuel k w Hpending Htime.
  - cbn [Nat.add poll_time polls_log]. rewrite Nat.add_0_r, app_nil_r.
    by destruct w.
  - change (S n + fuel)%nat with (S (n + fuel)). rewrite poll_loop_unfold.
    pose proof (Htime 0%nat ltac:(lia)) as H0. cbn [poll_time] in H0.
    apply Z.ltb_lt in H0. rewrite H0. cbv zeta.
    destruct (Hpending 0%nat ltac:(lia)) as (receipt & Hreceipt & Hterm).
    rewrite Nat.add_0_r in Hreceipt.
    rewrite (receipt_of_result _ _ Hreceipt), Hterm.
    rewrite IH.
    + cbn [now game log answered poll_time polls_log].
      rewrite Hreceipt, Z.max_r by lia.
      rewrite Nat.add_succ_r. cbn [Nat.add].
      do 2 f_equal. rewrite <- !app_assoc. reflexivity.
    + intros j Hj. rewrite Nat.add_succ_l, <- Nat.add_succ_r.
      apply Hpending. lia.
    + intros j Hj. cbn [now answered]. rewrite Z.max_r by lia.
      apply (Htime (S j)). lia.
Qed.

(** X11. A poll that fails is not retried: when the polls before it were
    answered with non-terminal receipts and it was started before the
    timeout, [waitIntentReceipt] throws its error as it is, right after
    that request. *)
Theorem failing_poll_is_not_retried fuel svc replies id options
    (w : World G) (n : nat) (e : thrown) :
  let timeout := default 300000 (options ≫= timeout) in
  let interval := default 2000 (options ≫= pollInterval) in
  0 <= interval →
  (∀ j, (j < n)%nat → pending_poll (replies j)) →
  (∀ j, (j <= n)%nat →
        poll_time replies interval 0 (now w) j - now w < timeout) →
  request_result (replies n) = inl e →
  (n < fuel)%nat →
  waitIntentReceipt fuel svc replies id options w
  = Some (inl e,
          {| now := poll_time replies interval 0 (now w) n
                    + latency (replies n);
             game := game w;
             log := log w ++ polls_log svc replies id interval 0 (now w) n
                    ++ [Request (poll_time replies interval 0 (now w) n)
                          (poll_url svc) (ReceiptBody id)] |}).
Proof.
  intros timeout interval Hint Hpending Htime Hfail Hfuel.
  change (waitIntentReceipt fuel svc replies id options w)
    with (poll_loop fuel svc replies 0 id (now w) timeout interval w).
  replace fuel with (n + S (fuel - S n))%nat by lia.
  rewrite (poll_loop_pending svc replies id (now w) timeout interval Hint);
    [| exact Hpending | intros j Hj; apply Htime; lia].
  rewrite poll_loop_unfold. cbn [now Nat.add].
  pose proof (Htime n ltac:(lia)) as Hn. apply Z.ltb_lt in Hn. rewrite Hn.
  cbv zeta. rewrite Hfail. unfold answered. cbn [now game log].
  by rewrite <- app_assoc.
Qed.

Lemma count_requests_app (evs1 evs2 : list event) :
  count_requests (evs1 ++ evs2)
  = (count_requests evs1 + count_requests evs2)%nat.
Proof.
  induction evs1 as [| ev evs1 IH]; [reflexivity |].
  destruct ev; simpl; by rewrite IH.
Qed.

(** The loop sends polls for its intent only, and a poll only while the
    time spent is below the timeout. *)
Lemma poll_loop_budget svc replies id start timeout interval :
  (∀ k, 0 <= latency (replies k)) →
  ∀ fuel k (w : World G) res w',
    poll_loop fuel svc replies k id start timeout interval w
    = Some (res, w') →
    ∃ evs, log w' = log w ++ evs
           ∧ Forall (waiting_event svc id) evs
           ∧ count_effects evs = 0%nat
           ∧ (count_requests evs = 0%nat
              ∨ now w - start
                + (Z.of_nat (count_requests evs) - 1) * Z.max 0 interval
                < timeout).
Proof.
  intros Hlat. induction fuel as [| fuel IH]; intros k w res w' Hrun;
    [discriminate |].
  rewrite poll_loop_unfold in Hrun.
  destruct (now w - start <? timeout) eqn:Ht.
  2:{ injection Hrun as <- <-. exists []. rewrite app_nil_r.
      split; [reflexivity |]. split; [constructor |].
      split; [reflexivity | by left]. }
  apply Z.ltb_lt in Ht. cbv zeta in Hrun.
  assert (Hpoll : waiting_event svc id
                    (Request (now w) (baseUrl svc +:+ "/v1/getIntentReceipt")
                       (ReceiptBody id))) by (by split).
  destruct (request_result (replies k)) as [e | receipt].
  { injection Hrun as <- <-. eexists [_]. split; [reflexivity |].
    split; [by repeat constructor |]. split; [reflexivity |].
    right. cbn [count_requests]. lia. }
  destruct (is_terminal receipt).
  { injection Hrun as <- <-. eexists [_; _].
    split; [cbn [log logged answered]; by rewrite <- app_assoc |].
    split; [by repeat constructor |]. split; [reflexivity |].
    right. cbn [count_requests]. lia. }
  apply IH in Hrun as (evs & Hlog & Hall & Heff & Hcount).
  cbn [now log answered] in Hlog, Hcount. specialize (Hlat k).
  eexists (_ :: _ :: _ :: evs). split.
  { rewrite Hlog, <- !app_assoc. reflexivity. }
  split; [by repeat constructor |]. split; [exact Heff |].
  right. cbn [count_requests].
  destruct Hcount as [-> | Hcount]; [lia |]. nia.
Qed.

(** X12. When the answers take no negative time, a call of
    [waitIntentReceipt] that ends has sent polls for its intent only,
    and at most as many as poll intervals start within the timeout,
    plus one: at most 150 with the default options, however long the
    answers take. *)
Theorem polls_are_bounded fuel svc replies id options (w : World G) res w' :
  let timeout := default 300000 (options ≫= timeout) in
  let interval := default 2000 (options ≫= pollInterval) in
  (∀ k, 0 <= latency (replies k)) →
  waitIntentReceipt fuel svc replies id options w = Some (res, w') →
  ∃ evs, log w' = log w ++ evs
         ∧ Forall (waiting_event svc id) evs
         ∧ (count_requests evs = 0%nat
            ∨ (Z.of_nat (count_requests evs) - 1) * Z.max 0 interval < timeout)
         ∧ (options = None → (count_requests evs <= 150)%nat).
Proof.
  intros timeout interval Hlat Hrun.
  change (waitIntentReceipt fuel svc replies id options w)
    with (poll_loop fuel svc replies 0 id (now w) timeout interval w) in Hrun.
  destruct (poll_loop_budget _ _ _ _ _ _ Hlat _ _ _ _ _ Hrun)
    as (evs & Hlog & Hall & _ & Hcount).
  exists evs. split; [exact Hlog |]. split; [exact Hall |]. split.
  - destruct Hcount as [Hc | Hc]; [by left | right; lia].
  - intros ->. subst timeout interval. cbn in Hcount.
    destruct Hcount as [Hc | Hc]; lia.
Qed.

Lemma update_run onStatusUpdate msg (w : World G) :
  update onStatusUpdate msg w
  = Some (inr tt, after w 0 (status_events onStatusUpdate msg)).
Proof.
  destruct w as [t g l]. unfold after.
  destruct onStatusUpdate as [k |]; cbn; rewrite Z.add_0_r;
    [reflexivity | by rewrite app_nil_r].
Qed.

Lemma request_after {T} svc endpoint body (r : reply T) (w : World G) :
  request svc endpoint body r w
  = Some (request_result r,
          after w (latency r)
            [Request (now w) (baseUrl svc +:+ endpoint) body]).
Proof. apply request_run. Qed.

Lemma after_after (w : World G) a evs b evs' :
  after (after w a evs) b evs' = after w (a + b) (evs ++ evs').
Proof.
  unfold after. cbn [now game log]. f_equal; [lia | by rewrite app_assoc].
Qed.

(** The last step of a purchase: the wait sends polls for the intent
    only, and the effect is applied in agreement with the result. *)
Lemma wait_and_apply_guarded fuel svc replies id (item : ShopItem G) :
  (∀ k, 0 <= latency (replies k)) → (151 <= fuel)%nat →
  ∀ w, ∃ res w' evs,
    bind (waitIntentReceipt fuel svc replies id None)
      (λ receipt,
         bind match status receipt with
              | completed => apply_effect item
              | _ => ret tt
              end
           (λ _, ret receipt)) w
    = Some (res, w')
    ∧ log w' = log w ++ evs
    ∧ Forall (waiting_event svc id) evs
    ∧ guarded item res w w' evs.
Proof.
  intros Hlat Hfuel w. unfold bind at 1.
  change (waitIntentReceipt fuel svc replies id None w)
    with (poll_loop fuel svc replies 0 id (now w) 300000 2000 w).
  destruct (poll_loop_total svc replies id (now w) 300000 2000
              ltac:(lia) Hlat fuel 0%nat w ltac:(lia) ltac:(lia))
    as [[res1 w1] Hrun].
  rewrite Hrun.
  destruct (poll_loop_received _ _ _ _ _ _ _ _ _ _ _ Hrun)
    as (evs1 & Hlog1 & Hgame1 & Hcount1 & _ & Hret).
  destruct (poll_loop_budget _ _ _ _ _ _ Hlat _ _ _ _ _ Hrun)
    as (evs1' & Hlog1' & Hall & _).
  assert (evs1' = evs1) as -> by (rewrite Hlog1 in Hlog1'; by simplify_list_eq).
  destruct res1 as [e | r0].
  { exists (inl e), w1, evs1. split; [reflexivity |].
    split; [exact Hlog1 |]. split; [exact Hall |].
    split; [discriminate |]. left. by repeat split. }
  destruct (Hret r0 eq_refl) as [Hterm0 Hin0].
  destruct (status r0) eqn:Hstatus;
    try (exists (inr r0), w1, evs1; split; [reflexivity |];
         split; [exact Hlog1 |]; split; [exact Hall |]; split;
         [by intros r [= <-] |];
         left; split; [exact Hcount1 |]; split; [exact Hgame1 |];
         intros r [= <-]; congruence).
  eexists (inr r0), _, (evs1 ++ [EffectApplied (Trails.id item)]).
  split; [reflexivity |].
  split; [cbn [log]; by rewrite Hlog1, app_assoc |].
  split; [apply Forall_app; split; [exact Hall | by repeat constructor] |].
  split.
  - intros r [= <-]. split; [exact Hterm0 |].
    apply elem_of_app. by left.
  - right. rewrite count_effects_app, Hcount1. cbn [now game].
    rewrite Hgame1. split; [reflexivity |]. split; [reflexivity |].
    by exists r0.
Qed.

(** After a quiet step, the rest of the run decides. *)
Lemma bind_quiet_guarded {A} (item : ShopItem G) (m : M G A)
    (k : A → M G IntentReceipt) :
  quiet_run m → (∀ a, guarded_run item (k a)) →
  guarded_run item (bind m k).
Proof.
  intros Hm Hk w. unfold bind.
  destruct (Hm w) as (res & w1 & evs1 & -> & Hlog1 & Hgame1 & Hq).
  destruct res as [e | a].
  - exists (inl e), w1, evs1. split; [reflexivity |].
    split; [exact Hlog1 |]. split; [discriminate |].
    left. split; [exact (proj1 Hq) |]. split; [exact Hgame1 | discriminate].
  - destruct (Hk a w1) as (res & w2 & evs2 & Hrun & Hlog2 & Hret & Hcase).
    exists res, w2, (evs1 ++ evs2). split; [exact Hrun |].
    split; [by rewrite Hlog2, Hlog1, app_assoc |]. split.
    + intros r Hr. destruct (Hret r Hr) as [Hterm Hin].
      split; [exact Hterm |]. apply elem_of_app. by right.
    + rewrite count_effects_app, (proj1 Hq), <- Hgame1. exact Hcase.
Qed.

Lemma try_catch_guarded (item : ShopItem G) (body : M G IntentReceipt) :
  guarded_run item body →
  guarded_run item (try_catch body purchaseItem_catch).
Proof.
  intros Hbody w. unfold try_catch.
  destruct (Hbody w) as (res & w' & evs & -> & Hlog & Hret & Hcase).
  destruct res as [e | receipt].
  - rewrite purchaseItem_catch_run. eexists _, w', evs.
    split; [reflexivity |]. split; [exact Hlog |].
    split; [discriminate |].
    destruct Hcase as [(Hc & Hg & _) | (_ & _ & r & [=] & _)].
    left. split; [exact Hc |]. split; [exact Hg | discriminate].
  - by exists (inr receipt), w', evs.
Qed.

(** X13. A purchase invokes the effect of the item at most once, and
    only for a receipt with the status [completed], which it then
    returns: whenever it throws (no wallet, a step refused, the wait
    timed out) or returns a receipt with another status, no effect was
    invoked and the store is as it was. Every receipt it returns is
    terminal and was received from the service. *)
Theorem effect_only_for_completed_receipt fuel svc env (item : ShopItem G)
    fromChainId onStatusUpdate (w : World G) :
  (∀ k, 0 <= latency (receipt_reply env k)) → (151 <= fuel)%nat →
  ∃ res w' evs,
    purchaseItem fuel svc env item fromChainId onStatusUpdate w
    = Some (res, w')
    ∧ log w' = log w ++ evs
    ∧ (∀ r, res = inr r → is_terminal r = true ∧ Received r ∈ evs)
    ∧ ((count_effects evs = 0%nat ∧ game w' = game w
        ∧ ∀ r, res = inr r → status r ≠ completed)
       ∨ (count_effects evs = 1%nat
          ∧ game w' = effect item (now w') (game w)
          ∧ ∃ r, res = inr r ∧ status r = completed)).
Proof.
  intros Hlat Hfuel.
  enough (Hrun : guarded_run item
                   (purchaseItem fuel svc env item fromChainId
                      onStatusUpdate)) by exact (Hrun w).
  clear w.
  assert (Hthrown : ∀ e : thrown, guarded_run item (throw e)).
  { intros e w. exists (inl e), w, []. split; [reflexivity |].
    split; [by rewrite app_nil_r |]. split; [discriminate |].
    left. by repeat split. }
  unfold purchaseItem.
  destruct (address svc) as [owner |]; [| apply Hthrown].
  destruct (signer svc) as [sg |]; [| apply Hthrown].
  destruct (String.eqb owner ""); [apply Hthrown |].
  clear Hthrown.
  apply try_catch_guarded. unfold purchaseItem_try.
  apply bind_quiet_guarded; [apply update_quiet | intros _].
  apply bind_quiet_guarded; [apply of_result_quiet | intros amount].
  apply bind_quiet_guarded; [apply request_quiet | intros quote].
  apply bind_quiet_guarded; [apply update_quiet | intros _].
  apply bind_quiet_guarded; [apply request_quiet | intros committed].
  apply bind_quiet_guarded; [apply update_quiet | intros _].
  apply bind_quiet_guarded; [apply request_quiet | intros _].
  apply bind_quiet_guarded; [apply update_quiet | intros _].
  intros w.
  destruct (wait_and_apply_guarded fuel (trails svc) (receipt_reply env)
              (commit_intentId committed) item Hlat Hfuel w)
    as (res & w' & evs & Hrun & Hlog & _ & Hguard).
  by exists res, w', evs.
Qed.

(** X14. A connected purchase goes through its steps in order, each
    announced to the status sink before its request is sent, and stops
    at the first step that fails: a price that cannot be converted sends
    nothing; the quote is asked for the owner, the chains, the native
    token on both sides, the treasury, EXACT_INPUT, a slippage of 0.005
    and the bridge AUTO; the commit sends the intent of the quote; the
    execution names the intent id of the commit result and no deposit
    signature; and after it only polls for that intent id are sent. The
    clock advances by the latencies of the requests sent. *)
Theorem purchase_steps_in_order fuel svc env (item : ShopItem G) fromChainId
    onStatusUpdate owner sg (w : World G) :
  address svc = Some owner → owner ≠ "" → signer svc = Some sg →
  let run := purchaseItem fuel svc env item fromChainId onStatusUpdate w in
  let url endpoint := baseUrl (trails svc) +:+ endpoint in
  let says := status_events onStatusUpdate in
  let l1 := latency (quote_reply env) in
  let l2 := latency (commit_reply env) in
  let l3 := latency (execute_reply env) in
  let s1 := says "Getting best route..." in
  (∀ e, parseEther env (priceEth item) = inl e →
        run = Some (inl (caught e), after w 0 s1))
  ∧ ∀ amount, parseEther env (priceEth item) = inr amount →
    let s2 :=
      s1 ++ [Request (now w) (url "/v1/quoteIntent")
               (purchase_quote svc owner fromChainId amount)] in
    (∀ e, request_result (quote_reply env) = inl e →
          run = Some (inl (caught e), after w l1 s2))
    ∧ ∀ quote, request_result (quote_reply env) = inr quote →
      let s3 :=
        s2 ++ says "Locking in rate..."
           ++ [Request (now w + l1) (url "/v1/commitIntent")
                 (CommitBody (intent quote))] in
      (∀ e, request_result (commit_reply env) = inl e →
            run = Some (inl (caught e), after w (l1 + l2) s3))
      ∧ ∀ committed, request_result (commit_reply env) = inr committed →
        let s4 :=
          s3 ++ says "Confirm in your wallet..."
             ++ [Request (now w + l1 + l2) (url "/v1/executeIntent")
                   (ExecuteBody (commit_intentId committed) None)] in
        (∀ e, request_result (execute_reply env) = inl e →
              run = Some (inl (caught e), after w (l1 + l2 + l3) s4))
        ∧ ∀ executed, request_result (execute_reply env) = inr executed →
          (∀ k, 0 <= latency (receipt_reply env k)) → (151 <= fuel)%nat →
          ∃ res w' evs,
            run = Some (res, w')
            ∧ log w'
              = log w ++ s4 ++ says "Waiting for confirmation..." ++ evs
            ∧ Forall (waiting_event (trails svc)
                        (commit_intentId committed)) evs.
Proof.
  intros Ha Hne Hs run url says l1 l2 l3 s1.
  assert (Hrun : run
                 = try_catch
                     (purchaseItem_try fuel svc env item fromChainId
                        onStatusUpdate owner)
                     purchaseItem_catch w).
  { subst run. by rewrite (purchaseItem_connected _ _ _ _ _ _ _ _ Ha Hne Hs). }
  clearbody run. unfold try_catch, purchaseItem_try in Hrun.
  unfold bind at 1 in Hrun. rewrite update_run in Hrun. fold says s1 in Hrun.
  unfold bind at 1 in Hrun. split.
  { intros e He. rewrite Hrun, He. cbn [of_result throw].
    by rewrite purchaseItem_catch_run. }
  intros amount Hamount s2. rewrite Hamount in Hrun.
  cbn [of_result ret] in Hrun.
  unfold bind at 1, quoteIntent in Hrun.
  rewrite request_after, after_after in Hrun.
  cbn [now after] in Hrun. rewrite Z.add_0_r, Z.add_0_l in Hrun.
  change (after w (latency (quote_reply env)) _) with (after w l1 s2) in Hrun.
  split.
  { intros e He. rewrite Hrun, He, purchaseItem_catch_run. reflexivity. }
  intros quote Hquote s3. rewrite Hquote in Hrun.
  unfold bind at 1 in Hrun. rewrite update_run, after_after in Hrun.
  unfold bind at 1, commitIntent in Hrun.
  rewrite request_after, after_after in Hrun.
  cbn [now after] in Hrun. rewrite !Z.add_0_r, <- !app_assoc in Hrun.
  change (after w (l1 + latency (commit_reply env)) _)
    with (after w (l1 + l2) s3) in Hrun.
  split.
  { intros e He. rewrite Hrun, He, purchaseItem_catch_run. reflexivity. }
  intros committed Hcommitted s4. rewrite Hcommitted in Hrun.
  unfold bind at 1 in Hrun. rewrite update_run, after_after in Hrun.
  unfold bind at 1, executeIntent in Hrun.
  rewrite request_after, after_after in Hrun.
  cbn [now after] in Hrun.
  rewrite !Z.add_0_r, <- !app_assoc, (Z.add_assoc (now w)) in Hrun.
  change (after w (l1 + l2 + latency (execute_reply env)) _)
    with (after w (l1 + l2 + l3) s4) in Hrun.
  split.
  { intros e He. rewrite Hrun, He, purchaseItem_catch_run. reflexivity. }
  intros executed Hexecuted Hlat Hfuel. rewrite Hexecuted in Hrun.
  unfold bind at 1 in Hrun. rewrite update_run, after_after in Hrun.
  match type of Hrun with
  | context [bind _ _ ?w0] =>
      destruct (wait_and_apply_guarded fuel (trails svc) (receipt_reply env)
                  (commit_intentId committed) item Hlat Hfuel w0)
        as (res & w' & evs & Hwait & Hlog & Hall & _)
  end.
  rewrite Hwait in Hrun. cbn [log after] in Hlog.
  rewrite <- !app_assoc in Hlog.
  destruct res as [e | receipt].
  - rewrite purchaseItem_catch_run in Hrun. by eexists _, w', evs.
  - by exists (inr receipt), w', evs.
Qed.

End MoreTrailsFacts.

Section MoreTrailsWitnesses.
Import Trails.

Lemma failing_poll_is_not_retried_witness :
  ∃ w', waitIntentReceipt 2 (trails sample_service) failing_polls
          "intent-1" None sample_world
        = Some (inl (JsError "Error" "Unknown error"), w')
        ∧ count_requests (log w') = 2%nat.
Proof.
  eexists. split.
  - apply (failing_poll_is_not_retried 2 (trails sample_service)
             failing_polls "intent-1" None sample_world 1
             (JsError "Error" "Unknown error")).
    + simpl. lia.
    + intros j Hj. replace j with 0%nat by lia. by eexists.
    + intros [| [| j]] Hj; simpl; lia.
    + reflexivity.
    + lia.
  - reflexivity.
Defined.

Lemma polls_are_bounded_witness :
  ∃ res w' evs,
    waitIntentReceipt 151 (trails sample_service) (sample_polls pending)
      "intent-1" None sample_world
    = Some (res, w')
    ∧ log w' = log sample_world ++ evs
    ∧ (count_requests evs <= 150)%nat.
Proof.
  assert (Hrun : ∃ res w',
            waitIntentReceipt 151 (trails sample_service)
              (sample_polls pending) "intent-1" None sample_world
            = Some (res, w')) by (vm_compute; eauto).
  destruct Hrun as (res & w' & Hrun).
  destruct (polls_are_bounded 151 (trails sample_service)
              (sample_polls pending) "intent-1" None sample_world res w'
              (sample_polls_latency pending) Hrun)
    as (evs & Hlog & _ & _ & Hcount).
  exists res, w', evs. split; [exact Hrun |]. split; [exact Hlog |].
  by apply Hcount.
Defined.

Lemma effect_only_for_completed_receipt_witness :
  ∃ res w' evs,
    purchaseItem 151 sample_service (sample_env failed) click_boost 8453
      None sample_world
    = Some (res, w')
    ∧ log w' = log sample_world ++ evs
    ∧ (∀ r, res = inr r → is_terminal r = true ∧ Received r ∈ evs)
    ∧ ((count_effects evs = 0%nat ∧ game w' = game sample_world
        ∧ ∀ r, res = inr r → status r ≠ completed)
       ∨ (count_effects evs = 1%nat
          ∧ game w' = effect click_boost (now w') (game sample_world)
          ∧ ∃ r, res = inr r ∧ status r = completed)).
Proof.
  apply (effect_only_for_completed_receipt 151 sample_service
           (sample_env failed) click_boost 8453 None sample_world).
  - apply sample_polls_latency.
  - lia.
Defined.

Lemma purchase_steps_in_order_witness :
  ∃ res w' evs,
    purchaseItem 151 sample_service (sample_env completed) click_boost 8453
      (Some 0%nat) sample_world
    = Some (res, w')
    ∧ log w'
      = [StatusUpdate 0%nat "Getting best route...";
         Request 1000 "https://api.trails.build/v1/quoteIntent"
           (purchase_quote sample_service "0xA11CE" 8453 230000000000000);
         StatusUpdate 0%nat "Locking in rate...";
         Request 1010 "https://api.trails.build/v1/commitIntent"
           (CommitBody sample_intent);
         StatusUpdate 0%nat "Confirm in your wallet...";
         Request 1020 "https://api.trails.build/v1/executeIntent"
           (ExecuteBody "intent-1" None);
         StatusUpdate 0%nat "Waiting for confirmation..."] ++ evs
    ∧ Forall (waiting_event (trails sample_service) "intent-1") evs.
Proof.
  destruct (purchase_steps_in_order 151 sample_service
              (sample_env completed) click_boost 8453 (Some 0%nat)
              "0xA11CE" BrowserSigner sample_world
              eq_refl ltac:(discriminate) eq_refl) as [_ Hquote].
  destruct (Hquote _ eq_refl) as [_ Hcommit].
  destruct (Hcommit _ eq_refl) as [_ Hexecute].
  destruct (Hexecute _ eq_refl) as [_ Hwait].
  exact (Hwait _ eq_refl (sample_polls_latency completed) ltac:(lia)).
Defined.

End MoreTrailsWitnesses.

(* ================================================================= *)
(** ** GamePaymentService: the wallet                                  *)
(* ================================================================= *)

Section WalletFacts.
Import Trails Wallet.

(** [connectWallet] is its three steps, one after the other. *)
Lemma connectWallet_steps b o :
  connectWallet b o
  = if negb (ethereum b) then (inl (JsError "Error" "No wallet detected"), o)
    else match getSigner b with
         | inl e => (inl e, connect_begin o)
         | inr sg =>
             match getAddress_of_signer b with
             | inl e => (inl e, connect_signer sg (connect_begin o))
             | inr a =>
                 (inr a,
                  connect_address a (connect_signer sg (connect_begin o)))
             end
         end.
Proof. reflexivity. Qed.

(** When the calls take turns, an address comes with a signer and a
    signer with a provider, also while a call is under way. *)
Lemma in_turn_fields o p :
  in_turn o p →
  (is_Some (address (service o)) → is_Some (signer (service o)))
  ∧ (is_Some (signer (service o)) → provider o = Some InjectedProvider)
  ∧ match p with
    | None => True
    | Some AwaitsSigner => provider o = Some InjectedProvider
    | Some AwaitsAddress =>
        provider o = Some InjectedProvider ∧ is_Some (signer (service o))
    end.
Proof.
  induction 1 as [key treasury destination
                 | o _ (IHa & IHs & _)
                 | o _ (IHa & IHs & _)
                 | sg o _ (IHa & IHs & IHp)
                 | o _ (IHa & IHs & _)
                 | adr o _ (IHa & IHs & IHp & IHsg)
                 | o _ _]; cbn.
  - repeat split; intros [x [=]].
  - by repeat split.
  - by repeat split.
  - repeat split; [by eexists | done | done | by eexists].
  - by repeat split.
  - by repeat split.
  - repeat split; intros [x [=]].
Qed.

(** Whole calls, one after the other, are calls that take turns. *)
Lemma in_turn_connectWallet b o :
  in_turn o None → in_turn (snd (connectWallet b o)) None.
Proof.
  intros Ho. rewrite connectWallet_steps.
  destruct (ethereum b); cbn [negb snd]; [| exact Ho].
  destruct (getSigner b) as [e | sg]; cbn [snd].
  { by apply in_turn_no_signer, in_turn_begin. }
  destruct (getAddress_of_signer b) as [e | a]; cbn [snd].
  - by apply in_turn_no_address, in_turn_signer, in_turn_begin.
  - by apply in_turn_address, in_turn_signer, in_turn_begin.
Qed.

(** Calls that take turns are among the calls that may overlap. *)
Lemma in_turn_session o p :
  in_turn o p →
  session o (match p with Some AwaitsSigner => 1 | _ => 0 end)
            (match p with Some AwaitsAddress => 1 | _ => 0 end).
Proof.
  induction 1; cbn in *.
  - apply session_new.
  - by apply session_begin.
  - by apply session_no_signer.
  - by apply session_signer.
  - by apply session_no_address.
  - by apply session_address.
  - by apply session_disconnect.
Qed.

Lemma same_config_connect b o : same_config o (snd (connectWallet b o)).
Proof.
  unfold connectWallet. destruct (ethereum b); cbn [negb]; [| done].
  destruct (getSigner b) as [e | sg]; [done |].
  by destruct (getAddress_of_signer b).
Qed.

(** X15. As long as the calls of [connectWallet] and
    [disconnectWallet] take turns (none starts while a [connectWallet]
    is awaiting the wallet), an address in the payment object comes
    with a signer and a provider, also while a [connectWallet] is under
    way and whether earlier calls went through or failed half way: when
    [getAddress] gives a non-empty address, [purchaseItem] gets past
    its wallet check into the [try] block with that address as the
    owner, and [getChainId] asks the network. With the empty address,
    [isConnected] says yes and [purchaseItem] still throws "Wallet not
    connected", before anything is sent. Whole calls made one after
    the other take turns. *)
Theorem in_turn_address_can_purchase (o : PaymentObject) (p : option awaited)
    (owner : string) :
  in_turn o p → getAddress o = Some owner →
  isConnected o = true
  ∧ (∀ b, getChainId b o = getNetwork b)
  ∧ (∀ G fuel env (item : ShopItem G) fromChainId onStatusUpdate,
       (owner ≠ "" →
        purchaseItem fuel (service o) env item fromChainId onStatusUpdate
        = try_catch
            (purchaseItem_try fuel (service o) env item fromChainId
               onStatusUpdate owner)
            purchaseItem_catch)
       ∧ (owner = "" →
          ∀ w, purchaseItem fuel (service o) env item fromChainId
                 onStatusUpdate w
               = Some (inl not_connected_error, w)))
  ∧ (p = None →
     (∀ b, in_turn (snd (connectWallet b o)) None)
     ∧ in_turn (disconnectWallet o) None).
Proof.
  intros Hturn Ha. unfold getAddress in Ha.
  destruct (in_turn_fields o p Hturn) as (Hsigner & Hprovider & _).
  destruct (Hsigner ltac:(by eexists)) as [sg Hsg].
  specialize (Hprovider ltac:(by eexists)).
  split; [unfold isConnected; by rewrite Ha |].
  split; [intros b; unfold getChainId; by rewrite Hprovider |].
  split.
  - intros G fuel env item fromChainId onStatusUpdate. split.
    + intros Hne. by apply (purchaseItem_connected _ _ _ _ _ _ _ sg).
    + intros -> w. apply purchaseItem_not_connected. auto.
  - intros ->. split.
    + intros b. by apply in_turn_connectWallet.
    + by apply in_turn_disconnect.
Qed.

Lemma in_turn_address_can_purchase_witness :
  let o := snd (connectWallet locked_browser
                  (snd (connectWallet sample_browser
                          (GamePaymentService_new "key" "0x7EA5" None)))) in
  isConnected o = true
  ∧ (∀ b, getChainId b o = getNetwork b)
  ∧ ∀ G fuel env (item : ShopItem G) fromChainId onStatusUpdate,
      purchaseItem fuel (service o) env item fromChainId onStatusUpdate
      = try_catch
          (purchaseItem_try fuel (service o) env item fromChainId
             onStatusUpdate "0xA11CE")
          purchaseItem_catch.
Proof.
  intros o.
  destruct (in_turn_address_can_purchase o None "0xA11CE")
    as (Hconnected & Hchain & Hpurchase & _).
  - apply in_turn_connectWallet, in_turn_connectWallet, in_turn_new.
  - reflexivity.
  - split; [exact Hconnected |]. split; [exact Hchain |].
    intros G fuel env item fromChainId onStatusUpdate.
    by apply (Hpurchase G fuel env item fromChainId onStatusUpdate).
Defined.

(** X17. When the calls overlap, an address does not come with a signer
    and a provider any more. A [disconnectWallet] that runs while a
    [connectWallet] awaits the address of its signer is undone by half:
    the call goes on to assign the address, and leaves an object with
    an address but neither signer nor provider, for which [isConnected]
    says yes while [getChainId] and [purchaseItem] throw "Wallet not
    connected". A [disconnectWallet] that runs while the call awaits
    its signer leaves the signer and the address set without a
    provider: [purchaseItem] gets past its wallet check and
    [getChainId] throws. *)
Theorem overlapping_disconnect_breaks_connection (o : PaymentObject)
    (s a : nat) (sg : Signer) (adr : string) :
  session o s a →
  let late :=
    connect_address adr
      (disconnectWallet (connect_signer sg (connect_begin o))) in
  let early :=
    connect_address adr
      (connect_signer sg (disconnectWallet (connect_begin o))) in
  (session late s a
   ∧ isConnected late = true ∧ getAddress late = Some adr
   ∧ signer (service late) = None ∧ provider late = None
   ∧ (∀ b, getChainId b late = inl not_connected_error)
   ∧ ∀ G fuel env (item : ShopItem G) fromChainId onStatusUpdate w,
       purchaseItem fuel (service late) env item fromChainId
         onStatusUpdate w
       = Some (inl not_connected_error, w))
  ∧ (session early s a
     ∧ isConnected early = true ∧ getAddress early = Some adr
     ∧ signer (service early) = Some sg ∧ provider early = None
     ∧ (∀ b, getChainId b early = inl not_connected_error)
     ∧ (adr ≠ "" →
        ∀ G fuel env (item : ShopItem G) fromChainId onStatusUpdate,
          purchaseItem fuel (service early) env item fromChainId
            onStatusUpdate
          = try_catch
              (purchaseItem_try fuel (service early) env item fromChainId
                 onStatusUpdate adr)
              purchaseItem_catch)).
Proof.
  intros Ho late early. split.
  - split.
    { by apply session_address, session_disconnect, session_signer,
        session_begin. }
    do 5 (split; [reflexivity |]).
    intros G fuel env item fromChainId onStatusUpdate w.
    apply purchaseItem_not_connected. right. by right.
  - split.
    { by apply session_address, session_signer, session_disconnect,
        session_begin. }
    do 5 (split; [reflexivity |]).
    intros Hne G fuel env item fromChainId onStatusUpdate.
    by apply (purchaseItem_connected _ _ _ _ _ _ _ sg).
Qed.

Lemma overlapping_disconnect_breaks_connection_witness :
  let late :=
    connect_address "0xA11CE"
      (disconnectWallet
         (connect_signer BrowserSigner
            (connect_begin (GamePaymentService_new "key" "0x7EA5" None)))) in
  session late 0 0
  ∧ isConnected late = true
  ∧ (∀ G fuel env (item : ShopItem G) fromChainId onStatusUpdate w,
       purchaseItem fuel (service late) env item fromChainId
         onStatusUpdate w
       = Some (inl not_connected_error, w)).
Proof.
  intros late.
  destruct (overlapping_disconnect_breaks_connection
              (GamePaymentService_new "key" "0x7EA5" None) 0 0
              BrowserSigner "0xA11CE" (session_new "key" "0x7EA5" None))
    as [(Hsession & Hconnected & _ & _ & _ & _ & Hpurchase) _].
  split; [exact Hsession |]. split; [exact Hconnected | exact Hpurchase].
Defined.

(** X16. What [connectWallet] and [disconnectWallet] leave behind.
    Without an injected wallet, [connectWallet] throws "No wallet
    detected" and changes nothing. When it returns an address, that
    address is the one [getAddress] gives from then on, with the signer
    the provider gave. When it throws, the address is the one from
    before, so a connected object stays connected under its old address,
    even with the signer already replaced; and once a wallet was there,
    [getChainId] asks the network whether or not the call went through.
    [disconnectWallet] clears all three fields: nothing is connected,
    [getChainId] and [purchaseItem] throw "Wallet not connected", and a
    second call changes nothing. Neither call touches the service, the
    treasury address or the destination chain. *)
Theorem wallet_calls_outcomes (b : Browser) (o : PaymentObject) :
  let r := connectWallet b o in
  let d := disconnectWallet o in
  (ethereum b = false → r = (inl (JsError "Error" "No wallet detected"), o))
  ∧ (∀ a, fst r = inr a →
       getAddress (snd r) = Some a ∧ isConnected (snd r) = true
       ∧ getAddress_of_signer b = inr a
       ∧ ∃ sg, getSigner b = inr sg ∧ signer (service (snd r)) = Some sg)
  ∧ (∀ e, fst r = inl e →
       getAddress (snd r) = getAddress o
       ∧ isConnected (snd r) = isConnected o
       ∧ (ethereum b = true → ∀ sg, getSigner b = inr sg →
          signer (service (snd r)) = Some sg))
  ∧ (ethereum b = true → ∀ b', getChainId b' (snd r) = getNetwork b')
  ∧ same_config o (snd r)
  ∧ isConnected d = false ∧ getAddress d = None
  ∧ (∀ b', getChainId b' d = inl not_connected_error)
  ∧ (∀ G fuel env (item : ShopItem G) fromChainId onStatusUpdate w,
       purchaseItem fuel (service d) env item fromChainId onStatusUpdate w
       = Some (inl not_connected_error, w))
  ∧ disconnectWallet d = d
  ∧ same_config o d.
Proof.
  intros r d. subst r d. split.
  { unfold connectWallet. by intros ->. }
  split.
  { intros a. unfold connectWallet.
    destruct (ethereum b); cbn [negb]; [| discriminate].
    destruct (getSigner b) as [e | sg]; [discriminate |].
    destruct (getAddress_of_signer b) as [e | a']; [discriminate |].
    cbn [fst snd]. intros [= ->]. repeat split. by exists sg. }
  split.
  { intros e. unfold connectWallet.
    destruct (ethereum b); cbn [negb]; [| done].
    destruct (getSigner b) as [e' | sg]; [done |].
    destruct (getAddress_of_signer b) as [e' | a]; [| discriminate].
    cbn [fst snd]. intros _. repeat split. by intros _ sg' [= ->]. }
  split.
  { intros Hb b'. unfold connectWallet. rewrite Hb. cbn [negb].
    destruct (getSigner b) as [e' | sg]; [done |].
    by destruct (getAddress_of_signer b). }
  split; [apply same_config_connect |].
  split; [reflexivity |]. split; [reflexivity |].
  split; [reflexivity |]. split; [| by repeat split].
  intros G fuel env item fromChainId onStatusUpdate w.
  apply purchaseItem_not_connected. by left.
Qed.

Lemma wallet_calls_outcomes_witness :
  let connected := snd (connectWallet sample_browser
                          (GamePaymentService_new "key" "0x7EA5" None)) in
  let again := connectWallet locked_browser connected in
  fst again = inl (JsError "Error" "wallet is locked")
  ∧ getAddress (snd again) = Some "0xA11CE"
  ∧ isConnected (snd again) = true.
Proof.
  intros connected again.
  destruct (wallet_calls_outcomes locked_browser connected)
    as (_ & _ & Hthrows & _).
  destruct (Hthrows (JsError "Error" "wallet is locked") eq_refl)
    as (Haddress & Hconnected & _).
  split; [reflexivity |]. split.
  - exact Haddress.
  - exact Hconnected.
Defined.

End WalletFacts.
